(** * pwait: wait for an unrelated process and report its exit code

    A shallow embedding of [pwait.c].  The program is a straight line of
    calls into libcap, ptrace(2), sigaction(2) and waitpid(2); every answer
    of the operating system is an input of the model (the records [libcap]
    and [kernel] below) and every call and every line written is recorded in
    a trace, so that statements such as 'no attach is attempted' are
    statements about that trace.

    Integers are [Z] with the C conversions written out: [pid_t] and [int]
    are 32-bit two's complement, [long] and [unsigned long] are 64 bits
    (LP64, as on 64-bit Linux).  Signals are modelled where the program
    can be interrupted for long, inside the blocking wait call. *)

From Stdlib Require Import ZArith List String Ascii Bool Lia.
From Stdlib Require DecimalString HexadecimalString.
Import ListNotations.

Local Open Scope string_scope.
Local Open Scope Z_scope.

(** ** C integer conversions *)

Module CInt.

Definition INT_MIN : Z := - 2 ^ 31.
Definition INT_MAX : Z := 2 ^ 31 - 1.
Definition LONG_MIN : Z := - 2 ^ 63.
Definition LONG_MAX : Z := 2 ^ 63 - 1.

(** Conversion to [int] / [pid_t]: reduction modulo 2^32 into the signed
    range, which is what gcc and clang do for [(int)x] and for the
    assignment [pid = strtol (...)]. *)
Definition to_int (z : Z) : Z := (z + 2 ^ 31) mod 2 ^ 32 - 2 ^ 31.

(** The bit pattern of an [int] read as [unsigned int] (printf's [%x]). *)
Definition to_uint (z : Z) : Z := z mod 2 ^ 32.

Definition in_int (z : Z) : Prop := INT_MIN <= z <= INT_MAX.

(** [%d] and [%x] of printf, for an [int] argument. *)
Definition fmt_d (z : Z) : string :=
  DecimalString.NilZero.string_of_int (Z.to_int z).

Definition fmt_x (z : Z) : string :=
  HexadecimalString.NilZero.string_of_uint (N.to_hex_uint (Z.to_N (to_uint z))).

End CInt.

Import CInt.

(** ** strtol(3) with base 0

    [main] calls [strtol (argv[1], &endptr, 0)] and looks at two things only:
    the value, and whether [endptr] moved.  The model follows the C standard:
    leading white space, an optional sign, the prefix [0x]/[0X] (only when a
    hexadecimal digit follows) for base 16, a leading [0] for base 8, base 10
    otherwise; the longest run of digits of that base; the value clamped to
    the range of [long]; and, when there is no digit at all, value 0 and
    [endptr = nptr]. *)

Module Strtol.

Definition isspace (c : ascii) : bool :=
  let n := nat_of_ascii c in
  (Nat.eqb n 32 || (Nat.leb 9 n && Nat.leb n 13))%bool.

(** Value of a character as a digit, in any base up to 36. *)
Definition digit_val (c : ascii) : option Z :=
  let n := Z.of_nat (nat_of_ascii c) in
  if (48 <=? n) && (n <=? 57) then Some (n - 48)
  else if (97 <=? n) && (n <=? 122) then Some (n - 97 + 10)
  else if (65 <=? n) && (n <=? 90) then Some (n - 65 + 10)
  else None.

Definition is_digit (base : Z) (c : ascii) : bool :=
  match digit_val c with
  | Some d => d <? base
  | None => false
  end.

Fixpoint skip_space (s : string) : nat * string :=
  match s with
  | String c s' =>
      if isspace c then let (n, r) := skip_space s' in (S n, r) else (O, s)
  | EmptyString => (O, s)
  end.

(** Longest run of digits of [base]: the accumulated value (starting from
    [acc]) and the number of characters read. *)
Fixpoint digits (base : Z) (acc : Z) (s : string) : Z * nat :=
  match s with
  | String c s' =>
      match digit_val c with
      | Some d =>
          if d <? base
          then let (v, n) := digits base (acc * base + d) s' in (v, S n)
          else (acc, O)
      | None => (acc, O)
      end
  | EmptyString => (acc, O)
  end.

Definition clamp (z : Z) : Z := Z.max LONG_MIN (Z.min LONG_MAX z).

Record conversion := { value : Z; endpos : nat }.

Definition no_conversion : conversion := {| value := 0; endpos := O |}.

(** Sign: [(negative, characters read, rest)]. *)
Definition sign (s : string) : bool * nat * string :=
  match s with
  | String "-" s' => (true, 1%nat, s')
  | String "+" s' => (false, 1%nat, s')
  | _ => (false, O, s)
  end.

(** Base detection for base 0: [(base, characters skipped, rest)]. *)
Definition detect_base (s : string) : Z * nat * string :=
  match s with
  | String "0" (String x (String h r)) =>
      if ((Ascii.eqb x "x" || Ascii.eqb x "X") && is_digit 16 h)%bool
      then (16, 2%nat, String h r)
      else (8, O, s)
  | String "0" _ => (8, O, s)
  | _ => (10, O, s)
  end.

Definition strtol0 (nptr : string) : conversion :=
  let (nws, s1) := skip_space nptr in
  let '(neg, nsign, s2) := sign s1 in
  let '(base, npre, s3) := detect_base s2 in
  let (v, nd) := digits base 0 s3 in
  match nd with
  | O => no_conversion
  | _ => {| value := clamp (if neg then - v else v);
            endpos := (nws + nsign + npre + nd)%nat |}
  end.

End Strtol.

(** ** Constants and macros of the system headers used by the program *)

Definition SIGTRAP : Z := 5.
Definition PTRACE_EVENT_EXIT : Z := 6.
Definition CLD_EXITED : Z := 1.
Definition CLD_TRAPPED : Z := 4.

(** [#define PTRACE_EXIT_SIGINFO_STATUS (SIGTRAP | (PTRACE_EVENT_EXIT << 8))] *)
Definition PTRACE_EXIT_SIGINFO_STATUS : Z :=
  Z.lor SIGTRAP (Z.shiftl PTRACE_EVENT_EXIT 8).

(** [WIFSTOPPED(status)] is [((status) & 0xff) == 0x7f]. *)
Definition WIFSTOPPED (status : Z) : bool := Z.land status 255 =? 127.

(** ** The world the program runs in *)

(** The two signals the program installs a handler for. *)
Inductive termsig := SIGTERM | SIGINT.

(** Disposition of a signal: the two a process can inherit at [execve], and
    the program's own handler [detach]. *)
Inductive sigdisp := SIG_DFL | SIG_IGN | Handler_detach.

Inductive ptrace_request :=
  PTRACE_SEIZE | PTRACE_ATTACH | PTRACE_GETEVENTMSG | PTRACE_DETACH.

Inductive cap_flag := CAP_EFFECTIVE | CAP_PERMITTED.
Inductive cap_flag_value := CAP_CLEAR | CAP_SET.

Inductive cap_call :=
| CapIsSupported
| CapGetProc
| CapGetFlag (f : cap_flag)
| CapSetFlag
| CapSetProc
| CapFree.

(** What a run does that is visible outside the process. *)
Inductive event :=
| Stderr (text : string)
| Stdout (text : string)
| Libcap (c : cap_call)
| Sigaction (s : termsig) (d : sigdisp)
| Ptrace (r : ptrace_request) (target : Z)
| Waitpid (target : Z)
| Waitid (target : Z).

(** Build configuration: the two [#ifdef]s of the source. *)
Record build := {
  have_CAP_SYS_PTRACE : bool;
  have_PTRACE_SEIZE : bool
}.

(** Answers of libcap, one per call site of [prepare_capabilities].  A query
    answers [None] when [cap_get_flag] returns -1; a [bool] is [false] when
    the call fails ([NULL] or -1). *)
Record libcap := {
  cap_is_supported : bool;
  cap_get_proc_ok : bool;
  effective_before : option cap_flag_value;
  permitted : option cap_flag_value;
  cap_set_flag_ok : bool;
  cap_set_proc_ok : bool;
  effective_after : option cap_flag_value;
  cap_free_ok : bool
}.

(** What one blocking [waitpid (pid, &status, 0)] meets. *)
Inductive wait_result :=
| Returned (returned_pid : Z) (status : Z)
| Failed                        (* returns -1 *)
| Signalled (s : termsig).      (* [s] arrives while the call blocks *)

(** What one blocking [waitid (P_PID, pid, &siginfo, WEXITED)] meets; the
    [si_] fields are those of [siginfo] after the call ([si_pid] stays 0
    when the call does not fill it). *)
Inductive waitid_result :=
| IdReturned (ret : Z) (si_pid si_code si_status : Z)
| IdSignalled (s : termsig).

(** Answers of the kernel to one run. *)
Record kernel := {
  caps : libcap;
  inherited_sigterm : sigdisp;
  inherited_sigint : sigdisp;
  attach_return : Z;             (* of PTRACE_SEIZE / PTRACE_ATTACH *)
  waits : list wait_result;      (* successive waitpid calls *)
  eventmsg : option Z            (* PTRACE_GETEVENTMSG: [None] is -1 *)
}.

(** The mutable state of the process: the global [pid], the signal table,
    and the events so far, newest first. *)
Record world := {
  pid : Z;
  on_sigterm : sigdisp;
  on_sigint : sigdisp;
  log : list event
}.

Definition initial_world (k : kernel) : world :=
  {| pid := 0;
     on_sigterm := inherited_sigterm k;
     on_sigint := inherited_sigint k;
     log := [] |}.

(** Events in the order they happened. *)
Definition trace (w : world) : list event := rev (log w).

(** ** A state monad with two ways of not returning *)

Inductive outcome (A : Type) :=
| Done (a : A)
| Blocked                 (* the wait never returns *)
| Killed (s : termsig).   (* the default action of [s] ends the process *)

Arguments Done {A} a.
Arguments Blocked {A}.
Arguments Killed {A} s.

Definition M (A : Type) : Type := world -> outcome A * world.

Definition ret {A} (a : A) : M A := fun w => (Done a, w).

Definition bind {A B} (m : M A) (f : A -> M B) : M B :=
  fun w =>
    match m w with
    | (Done a, w') => f a w'
    | (Blocked, w') => (Blocked, w')
    | (Killed s, w') => (Killed s, w')
    end.

Declare Scope pwait_scope.
Delimit Scope pwait_scope with pwait.
Notation "x <- m ;; k" := (bind m (fun x => k))
  (at level 100, m at next level, right associativity) : pwait_scope.
Notation "m ;; k" := (bind m (fun _ => k))
  (at level 100, right associativity) : pwait_scope.
Local Open Scope pwait_scope.

Definition blocked {A} : M A := fun w => (Blocked, w).
Definition killed {A} (s : termsig) : M A := fun w => (Killed s, w).

Definition emit (e : event) : M unit :=
  fun w => (Done tt, {| pid := pid w; on_sigterm := on_sigterm w;
                        on_sigint := on_sigint w; log := e :: log w |}).

Definition get_pid : M Z := fun w => (Done (pid w), w).

Definition set_pid (p : Z) : M unit :=
  fun w => (Done tt, {| pid := p; on_sigterm := on_sigterm w;
                        on_sigint := on_sigint w; log := log w |}).

Definition disposition (s : termsig) (w : world) : sigdisp :=
  match s with SIGTERM => on_sigterm w | SIGINT => on_sigint w end.

(** [sigaction (s, &new, &old)]: installs [new], hands back the old one. *)
Definition sigaction (s : termsig) (new : sigdisp) : M sigdisp :=
  fun w =>
    (Done (disposition s w),
     match s with
     | SIGTERM => {| pid := pid w; on_sigterm := new;
                     on_sigint := on_sigint w; log := Sigaction s new :: log w |}
     | SIGINT => {| pid := pid w; on_sigterm := on_sigterm w;
                    on_sigint := new; log := Sigaction s new :: log w |}
     end).

(** ** The program *)

Definition nl : string := String (ascii_of_nat 10) EmptyString.

(** [dprint]: [vsnprintf] into a buffer of 1024 bytes, then the message and a
    new line on the error stream. *)
Definition dprint (message : string) : M unit :=
  emit (Stderr (substring 0 1023 message ++ nl)).

Definition usage (name : string) : M unit :=
  emit (Stderr ("Usage: " ++ name ++ " pid" ++ nl)).

Definition is_set (v : cap_flag_value) : bool :=
  match v with CAP_SET => true | CAP_CLEAR => false end.

(** [cap_free_safe]: the status of [cap_free], 0 or -1. *)
Definition cap_free_safe (lc : libcap) : M Z :=
  emit (Libcap CapFree) ;;
  if cap_free_ok lc then ret 0
  else (dprint "freeing capability struct failed" ;; ret (-1)).

Definition prepare_capabilities (bld : build) (lc : libcap) : M bool :=
  if negb (have_CAP_SYS_PTRACE bld) then
    dprint "ptrace capability is not defined" ;; ret false
  else
    emit (Libcap CapIsSupported) ;;
    if negb (cap_is_supported lc) then
      dprint "ptrace capability is not supported" ;; ret false
    else
      emit (Libcap CapGetProc) ;;
      if negb (cap_get_proc_ok lc) then
        dprint "getting capabilities of this process failed" ;; ret false
      else
        emit (Libcap (CapGetFlag CAP_EFFECTIVE)) ;;
        match effective_before lc with
        | None =>
            dprint "checking effective capabilities failed" ;;
            cap_free_safe lc ;; ret false
        | Some CAP_SET =>
            dprint "process has CAP_SYS_PTRACE" ;; ret true
        | Some CAP_CLEAR =>
            dprint "process does not have CAP_SYS_PTRACE" ;;
            emit (Libcap (CapGetFlag CAP_PERMITTED)) ;;
            match permitted lc with
            | None =>
                dprint "checking permitted capabilities failed" ;;
                cap_free_safe lc ;; ret false
            | Some CAP_CLEAR =>
                dprint "process is not permitted to acquire CAP_SYS_PTRACE" ;;
                ret false
            | Some CAP_SET =>
                dprint "process is permitted to acquire CAP_SYS_PTRACE" ;;
                emit (Libcap CapSetFlag) ;;
                if negb (cap_set_flag_ok lc) then
                  dprint "modifying capability structure failed" ;;
                  cap_free_safe lc ;; ret false
                else
                  emit (Libcap CapSetProc) ;;
                  if negb (cap_set_proc_ok lc) then
                    dprint "setting capability failed" ;;
                    cap_free_safe lc ;; ret false
                  else
                    emit (Libcap (CapGetFlag CAP_EFFECTIVE)) ;;
                    match effective_after lc with
                    | None =>
                        dprint "checking effective capabilities failed" ;;
                        cap_free_safe lc ;; ret false
                    | Some cap_sys_ptrace_status =>
                        dprint (if is_set cap_sys_ptrace_status
                                then "process has CAP_SYS_PTRACE"
                                else "process does not have CAP_SYS_PTRACE") ;;
                        status <- cap_free_safe lc ;;
                        if status =? -1 then ret false
                        else ret (is_set cap_sys_ptrace_status)
                    end
            end
        end.

(** The signal handler: [ptrace (PTRACE_DETACH, pid, 0, 0)]. *)
Definition detach (signal : termsig) : M unit :=
  p <- get_pid ;; emit (Ptrace PTRACE_DETACH p).

(** Delivery of [s] to a process blocked in a wait call.  With the handler
    installed, the handler runs and the call is interrupted ([true]: it
    returns -1, the source sets no [SA_RESTART]); an ignored signal leaves
    the call blocked ([false]); the default action ends the process. *)
Definition deliver (s : termsig) : M bool :=
  fun w =>
    match disposition s w with
    | Handler_detach => (detach s ;; ret true) w
    | SIG_IGN => ret false w
    | SIG_DFL => killed s w
    end.

(** Body of the [do ... while] of [wait_using_waitpid] after the call has
    returned [returned_pid] and stored [waitpid_return_status]; [again] is
    the next turn of the loop. *)
Definition waitpid_turn (returned_pid waitpid_return_status : Z)
    (again : M bool) : M bool :=
  p <- get_pid ;;
  if returned_pid =? -1 then
    dprint ("Error waiting for process " ++ fmt_d p) ;; ret false
  else if negb (returned_pid =? p) then
    dprint ("waitpid returned wrong process ID " ++ fmt_d returned_pid
            ++ " (expected " ++ fmt_d p ++ ")") ;;
    ret false
  else
    dprint ("return status " ++ fmt_x waitpid_return_status) ;;
    if WIFSTOPPED waitpid_return_status
       && (Z.shiftr waitpid_return_status 8 =? PTRACE_EXIT_SIGINFO_STATUS)
    then ret true
    else again.

(** The loop, over the successive answers of the kernel.  [resumed] tells
    that the process is still inside the call an ignored signal did not
    interrupt, so no new call is made.  Out of answers, the call blocks.
    When the call returns -1 the status is not written and not read; the
    model passes 0 for it.  The answers are those of the calls the loop
    makes: once the loop has returned, the rest is not read.  A signal that
    arrives after the interrupted call has returned (the handler is still
    installed then, and would detach again) is outside the model, and no
    statement below bounds the detaches of a run in which a signal
    arrives. *)
Fixpoint waitpid_loop (resumed : bool) (rs : list wait_result) : M bool :=
  (if resumed then ret tt else (p <- get_pid ;; emit (Waitpid p))) ;;
  match rs with
  | [] => blocked
  | Returned returned_pid status :: rs' =>
      waitpid_turn returned_pid status (waitpid_loop false rs')
  | Failed :: _ => waitpid_turn (-1) 0 blocked
  | Signalled s :: rs' =>
      interrupted <- deliver s ;;
      if interrupted then waitpid_turn (-1) 0 blocked
      else waitpid_loop true rs'
  end.

Definition wait_using_waitpid (rs : list wait_result) : M bool :=
  waitpid_loop false rs.

Definition waitid_turn (ret_ si_pid si_code si_status : Z)
    (again : M bool) : M bool :=
  p <- get_pid ;;
  if negb (ret_ =? 0) then
    dprint ("failed to wait on process " ++ fmt_d p) ;; ret false
  else if si_pid =? 0 then
    dprint ("failed to connect to process " ++ fmt_d p) ;; ret false
  else
    dprint ("siginfo status " ++ fmt_x si_status) ;;
    if (si_code =? CLD_TRAPPED) && (si_status =? PTRACE_EXIT_SIGINFO_STATUS)
    then ret true
    else again.

Fixpoint waitid_loop (resumed : bool) (rs : list waitid_result) : M bool :=
  (if resumed then ret tt else (p <- get_pid ;; emit (Waitid p))) ;;
  match rs with
  | [] => blocked
  | IdReturned ret_ si_pid si_code si_status :: rs' =>
      waitid_turn ret_ si_pid si_code si_status (waitid_loop false rs')
  | IdSignalled s :: rs' =>
      interrupted <- deliver s ;;
      if interrupted then waitid_turn (-1) 0 0 0 blocked
      else waitid_loop true rs'
  end.

Definition wait_using_waitid (rs : list waitid_result) : M bool :=
  waitid_loop false rs.

(** [get_tracee_exit_status]: the event message, converted to [int], or -1
    when the query fails. *)
Definition get_tracee_exit_status (k : kernel) : M Z :=
  p <- get_pid ;;
  emit (Ptrace PTRACE_GETEVENTMSG p) ;;
  match eventmsg k with
  | None =>
      dprint ("Error getting process " ++ fmt_d p ++ " exit status") ;;
      ret (-1)
  | Some tracee_exit_status => ret (to_int tracee_exit_status)
  end.

(** The attach call, chosen by [#ifdef PTRACE_SEIZE]. *)
Definition attach_request (bld : build) : ptrace_request :=
  if have_PTRACE_SEIZE bld then PTRACE_SEIZE else PTRACE_ATTACH.

Definition main (bld : build) (k : kernel) (argv : list string) : M Z :=
  if (Z.of_nat (List.length argv) <? 2) then
    usage (nth 0 argv "(null)") ;; ret 2
  else
    capable <- prepare_capabilities bld (caps k) ;;
    if negb capable then ret 1
    else
      let conv := Strtol.strtol0 (nth 1 argv "") in
      set_pid (to_int (Strtol.value conv)) ;;
      if Nat.eqb (Strtol.endpos conv) 0 then
        dprint "First argument must be a numeric PID" ;; ret 1
      else
        p <- get_pid ;;
        if p <? 1 then
          dprint ("Invalid process ID " ++ fmt_d p
                  ++ " passed as first argument") ;;
          ret 1
        else
          oldsiga_term <- sigaction SIGTERM Handler_detach ;;
          oldsiga_int <- sigaction SIGINT Handler_detach ;;
          dprint ("Attempting to set ptrace on process " ++ fmt_d p) ;;
          emit (Ptrace (attach_request bld) p) ;;
          if attach_return k =? -1 then
            dprint ("Error setting ptrace on process " ++ fmt_d p) ;; ret 1
          else
            waited <- wait_using_waitpid (waits k) ;;
            if negb waited then ret 1
            else
              dprint "Wait successful" ;;
              sigaction SIGTERM oldsiga_term ;;
              sigaction SIGINT oldsiga_int ;;
              tracee_exit_code <- get_tracee_exit_status k ;;
              dprint "Got exit code" ;;
              if tracee_exit_code =? -1 then ret 1
              else
                emit (Stdout ("Process " ++ fmt_d p ++ " exited with code "
                              ++ fmt_d tracee_exit_code ++ nl)) ;;
                ret 0.

(** One run of the program, from a fresh process. *)
Definition run (bld : build) (k : kernel) (argv : list string)
    : outcome Z * world :=
  main bld k argv (initial_world k).

Definition exit_code (r : outcome Z * world) : outcome Z := fst r.
Definition events (r : outcome Z * world) : list event := trace (snd r).

(** ** Reading a run *)

(** [evs] (newest first) added to the log. *)
Definition push (evs : list event) (w : world) : world :=
  {| pid := pid w; on_sigterm := on_sigterm w; on_sigint := on_sigint w;
     log := (evs ++ log w)%list |}.

Definition blank : world :=
  {| pid := 0; on_sigterm := SIG_DFL; on_sigint := SIG_DFL; log := [] |}.

(** The verdict of the privilege negotiation, and what it does, for given
    answers of libcap (the function reads nothing else). *)
Definition granted (bld : build) (lc : libcap) : bool :=
  match fst (prepare_capabilities bld lc blank) with
  | Done b => b
  | _ => false
  end.

Definition negotiation_events (bld : build) (lc : libcap) : list event :=
  trace (snd (prepare_capabilities bld lc blank)).

(** The process as it stands when it enters the wait step: [pid] is the
    target and [detach] handles both signals. *)
Definition watching (p : Z) : world :=
  {| pid := p; on_sigterm := Handler_detach; on_sigint := Handler_detach;
     log := [] |}.

(** How the wait step on target [p] ends, for given answers of the kernel. *)
Definition wait_outcome (p : Z) (rs : list wait_result) : outcome bool :=
  fst (wait_using_waitpid rs (watching p)).

Definition is_attach (e : event) : bool :=
  match e with
  | Ptrace PTRACE_SEIZE _ | Ptrace PTRACE_ATTACH _ => true
  | _ => false
  end.

(** System calls that name a target process. *)
Definition references_target (e : event) : bool :=
  match e with
  | Ptrace _ _ | Waitpid _ | Waitid _ => true
  | _ => false
  end.

Definition is_libcap (e : event) : bool :=
  match e with Libcap _ => true | _ => false end.

Definition is_sigaction (e : event) : bool :=
  match e with Sigaction _ _ => true | _ => false end.

Fixpoint stdout_of (evs : list event) : list string :=
  match evs with
  | Stdout s :: evs' => s :: stdout_of evs'
  | _ :: evs' => stdout_of evs'
  | [] => []
  end.

Fixpoint libcap_calls (evs : list event) : list cap_call :=
  match evs with
  | Libcap c :: evs' => c :: libcap_calls evs'
  | _ :: evs' => libcap_calls evs'
  | [] => []
  end.

Definition is_cap_free (c : cap_call) : bool :=
  match c with CapFree => true | _ => false end.

(** The checks of the negotiation, in the order of the function's header
    comment: supported, effective, permitted, raise (two calls), re-check. *)
Definition negotiation_order : list cap_call :=
  [CapIsSupported; CapGetProc; CapGetFlag CAP_EFFECTIVE;
   CapGetFlag CAP_PERMITTED; CapSetFlag; CapSetProc; CapGetFlag CAP_EFFECTIVE].

Definition is_prefix {A} (l m : list A) : Prop := exists r, m = (l ++ r)%list.

(** The argument [arg] as the program reads it. *)
Definition numeric (arg : string) : bool :=
  negb (Nat.eqb (Strtol.endpos (Strtol.strtol0 arg)) 0).

Definition parsed_pid (arg : string) : Z :=
  to_int (Strtol.value (Strtol.strtol0 arg)).

(** The line the program writes on success. *)
Definition success_line (p code : Z) : string :=
  "Process " ++ fmt_d p ++ " exited with code " ++ fmt_d code ++ nl.

(** The message the kernel keeps for the exit event of a process that
    calls [exit (code)]: its exit status in the form wait(2) reports it,
    [(code & 0xff) << 8] (ptrace(2), PTRACE_GETEVENTMSG; the macro
    [WEXITSTATUS] undoes it). *)
Definition exit_message (code : Z) : Z := Z.shiftl (Z.land code 255) 8.


(** *** Classification of what a wait call meets *)

(** A stopped status whose value shifted right by 8 is the exit event. *)
Definition exit_event_status (status : Z) : Prop :=
  Z.land status 255 = 127 /\
  Z.shiftr status 8 = Z.lor SIGTRAP (Z.shiftl PTRACE_EVENT_EXIT 8).

(** For target [p] and signal table [d]: [Some true] is the confirmed exit
    event, [Some false] an unrecoverable error, [None] something the loop
    passes over. *)
Inductive wait_class (p : Z) (d : termsig -> sigdisp)
    : wait_result -> option bool -> Prop :=
| class_exit st :
    p <> -1 -> exit_event_status st ->
    wait_class p d (Returned p st) (Some true)
| class_failed :
    wait_class p d Failed (Some false)
| class_minus_one st :
    wait_class p d (Returned (-1) st) (Some false)
| class_wrong_pid rp st :
    rp <> p -> wait_class p d (Returned rp st) (Some false)
| class_interrupted s :
    d s = Handler_detach -> wait_class p d (Signalled s) (Some false)
| class_other_stop st :
    p <> -1 -> ~ exit_event_status st ->
    wait_class p d (Returned p st) None
| class_ignored s :
    d s = SIG_IGN -> wait_class p d (Signalled s) None.

(** A stop of the target that is not the exit event. *)
Definition unrelated_stop (p : Z) (r : wait_result) : Prop :=
  exists st, r = Returned p st /\ ~ exit_event_status st.

(** *** One observation, as each wait call reports it

    What the kernel has to tell is the same whichever call asks; the two
    calls encode it differently (wait(2), waitid(2)).  A ptrace stop with
    stop code [c] is the status [(c << 8) | 0x7f] for [waitpid] and
    [si_code = CLD_TRAPPED], [si_status = c] for [waitid]; a normal exit
    with code [c] is the status [(c & 0xff) << 8], and [CLD_EXITED] with
    [si_status = c]. *)
Inductive observation :=
| ObsError
| ObsTrap (reported_pid : Z) (stop_code : Z)
| ObsExited (reported_pid : Z) (code : Z)
| ObsSignal (s : termsig).

Definition as_waitpid (o : observation) : wait_result :=
  match o with
  | ObsError => Failed
  | ObsTrap rp c => Returned rp (to_int (Z.lor (Z.shiftl c 8) 127))
  | ObsExited rp c => Returned rp (Z.shiftl (Z.land c 255) 8)
  | ObsSignal s => Signalled s
  end.

Definition as_waitid (o : observation) : waitid_result :=
  match o with
  | ObsError => IdReturned (-1) 0 0 0
  | ObsTrap rp c => IdReturned 0 rp CLD_TRAPPED c
  | ObsExited rp c => IdReturned 0 rp CLD_EXITED c
  | ObsSignal s => IdSignalled s
  end.

(** The reported process id of an observation is [p] or 0, and its code
    fits the status word. *)
Definition reports (p : Z) (o : observation) : Prop :=
  match o with
  | ObsTrap rp c => (rp = p \/ rp = 0) /\ 0 <= c < 2 ^ 23
  | ObsExited rp c => rp = p \/ rp = 0
  | _ => True
  end.

(** *** The stages of [main] *)

(** The event of one [dprint]. *)
Definition line (message : string) : event :=
  Stderr (substring 0 1023 message ++ nl).

(** The process when [main] enters the wait step on target [p], after a
    successful negotiation and attach (log newest first). *)
Definition armed (bld : build) (k : kernel) (p : Z) : world :=
  {| pid := p; on_sigterm := Handler_detach; on_sigint := Handler_detach;
     log := [Ptrace (attach_request bld) p;
             line ("Attempting to set ptrace on process " ++ fmt_d p);
             Sigaction SIGINT Handler_detach;
             Sigaction SIGTERM Handler_detach]
            ++ rev (negotiation_events bld (caps k)) |}.

(** What [main] logs from the extraction on (newest first), and the code it
    then returns. *)
Definition extraction_log (k : kernel) (p : Z) : list event :=
  match eventmsg k with
  | None =>
      [line "Got exit code";
       line ("Error getting process " ++ fmt_d p ++ " exit status");
       Ptrace PTRACE_GETEVENTMSG p]
  | Some m =>
      (if to_int m =? -1 then [] else [Stdout (success_line p (to_int m))])
      ++ [line "Got exit code"; Ptrace PTRACE_GETEVENTMSG p]
  end.

Definition extraction_code (k : kernel) : Z :=
  match eventmsg k with
  | None => 1
  | Some m => if to_int m =? -1 then 1 else 0
  end.

Definition is_stdout (e : event) : bool :=
  match e with Stdout _ => true | _ => false end.

Definition is_negotiation_event (e : event) : bool :=
  match e with Libcap _ | Stderr _ => true | _ => false end.

(** *** What the wait loop may add to the log *)

Definition is_wait_event (e : event) : bool :=
  match e with
  | Stderr _ | Waitpid _ | Waitid _ | Ptrace PTRACE_DETACH _ => true
  | _ => false
  end.

Definition quiet (evs : list event) : Prop :=
  Forall (fun e => is_wait_event e = true) evs.

(** A computation that leaves [pid] and the signal table alone and adds
    only wait events to the log. *)
Definition framed {A} (m : M A) : Prop :=
  forall w, exists evs, snd (m w) = push evs w /\ quiet evs.

(** *** The loops without the log

    One turn of either loop ends it with a result, goes round again, or
    ends the process; [scan] and [scan_id] follow the turns over the answers
    of the kernel.  They are proved below to be the outcomes of
    [waitpid_loop] and [waitid_loop]. *)

Inductive turn := TurnDone (b : bool) | TurnAgain | TurnKilled (s : termsig).

Definition signal_turn (d : termsig -> sigdisp) (s : termsig) : turn :=
  match d s with
  | Handler_detach => TurnDone false
  | SIG_IGN => TurnAgain
  | SIG_DFL => TurnKilled s
  end.

Definition turn_of (p : Z) (d : termsig -> sigdisp) (r : wait_result) : turn :=
  match r with
  | Returned rp st =>
      if rp =? -1 then TurnDone false
      else if negb (rp =? p) then TurnDone false
      else if WIFSTOPPED st && (Z.shiftr st 8 =? PTRACE_EXIT_SIGINFO_STATUS)
           then TurnDone true
           else TurnAgain
  | Failed => TurnDone false
  | Signalled s => signal_turn d s
  end.

Definition turn_of_id (d : termsig -> sigdisp) (r : waitid_result) : turn :=
  match r with
  | IdReturned ret_ si_pid si_code si_status =>
      if negb (ret_ =? 0) then TurnDone false
      else if si_pid =? 0 then TurnDone false
      else if (si_code =? CLD_TRAPPED)
              && (si_status =? PTRACE_EXIT_SIGINFO_STATUS)
           then TurnDone true
           else TurnAgain
  | IdSignalled s => signal_turn d s
  end.

Fixpoint follow {R} (t : R -> turn) (rs : list R) : outcome bool :=
  match rs with
  | [] => Blocked
  | r :: rs' =>
      match t r with
      | TurnDone b => Done b
      | TurnAgain => follow t rs'
      | TurnKilled s => Killed s
      end
  end.

Definition scan (p : Z) (d : termsig -> sigdisp) : list wait_result -> outcome bool :=
  follow (turn_of p d).

Definition scan_id (d : termsig -> sigdisp) : list waitid_result -> outcome bool :=
  follow (turn_of_id d).

(** ** The runs of [main], path by path *)

(** The events of the waitpid loop, in order, for target [p] and signal
    table [d]; proved below to be what [waitpid_loop] adds to the log. *)
Fixpoint waitpid_trace (p : Z) (d : termsig -> sigdisp) (resumed : bool)
    (rs : list wait_result) : list event :=
  ((if resumed then [] else [Waitpid p]) ++
   match rs with
   | [] => []
   | Returned rp st :: rs' =>
       if rp =? -1 then [line ("Error waiting for process " ++ fmt_d p)]
       else if negb (rp =? p) then
         [line ("waitpid returned wrong process ID " ++ fmt_d rp
                ++ " (expected " ++ fmt_d p ++ ")")]
       else
         line ("return status " ++ fmt_x st)
         :: (if WIFSTOPPED st
                && (Z.shiftr st 8 =? PTRACE_EXIT_SIGINFO_STATUS)
             then []
             else waitpid_trace p d false rs')
   | Failed :: _ => [line ("Error waiting for process " ++ fmt_d p)]
   | Signalled s :: rs' =>
       match d s with
       | Handler_detach =>
           [Ptrace PTRACE_DETACH p;
            line ("Error waiting for process " ++ fmt_d p)]
       | SIG_IGN => waitpid_trace p d true rs'
       | SIG_DFL => []
       end
   end)%list.

(** The signal table during the wait step of [main]. *)
Definition armed_table : termsig -> sigdisp := fun _ => Handler_detach.

(** What [main] has done when it enters the wait step. *)
Definition prelude (bld : build) (k : kernel) (p : Z) : list event :=
  (negotiation_events bld (caps k)
   ++ [Sigaction SIGTERM Handler_detach;
       Sigaction SIGINT Handler_detach;
       line ("Attempting to set ptrace on process " ++ fmt_d p);
       Ptrace (attach_request bld) p])%list.

(** What [main] does after a successful wait. *)
Definition closing (k : kernel) (p : Z) : list event :=
  ([line "Wait successful";
    Sigaction SIGTERM (inherited_sigterm k);
    Sigaction SIGINT (inherited_sigint k)]
   ++ rev (extraction_log k p))%list.

(** How [main] ends when the wait step ends without the exit event. *)
Definition after_failed_wait (o : outcome bool) : outcome Z :=
  match o with
  | Done _ => Done 1
  | Blocked => Blocked
  | Killed s => Killed s
  end.

(** The seven ways through [main]: the exit of the run and its events, in
    order.  Proved below to cover every run ([run_follows_path]). *)
Inductive run_path (bld : build) (k : kernel)
    : list string -> outcome Z -> list event -> Prop :=
| path_usage argv :
    (List.length argv < 2)%nat ->
    run_path bld k argv (Done 2)
      [Stderr ("Usage: " ++ nth 0 argv "(null)" ++ " pid" ++ nl)]
| path_denied prog arg rest :
    granted bld (caps k) = false ->
    run_path bld k (prog :: arg :: rest) (Done 1)
      (negotiation_events bld (caps k))
| path_not_numeric prog arg rest :
    granted bld (caps k) = true ->
    numeric arg = false ->
    run_path bld k (prog :: arg :: rest) (Done 1)
      (negotiation_events bld (caps k)
       ++ [line "First argument must be a numeric PID"])%list
| path_not_positive prog arg rest :
    granted bld (caps k) = true ->
    numeric arg = true ->
    parsed_pid arg < 1 ->
    run_path bld k (prog :: arg :: rest) (Done 1)
      (negotiation_events bld (caps k)
       ++ [line ("Invalid process ID " ++ fmt_d (parsed_pid arg)
                 ++ " passed as first argument")])%list
| path_attach_failed prog arg rest :
    granted bld (caps k) = true ->
    numeric arg = true ->
    1 <= parsed_pid arg ->
    attach_return k = -1 ->
    run_path bld k (prog :: arg :: rest) (Done 1)
      (prelude bld k (parsed_pid arg)
       ++ [line ("Error setting ptrace on process "
                 ++ fmt_d (parsed_pid arg))])%list
| path_wait_failed prog arg rest :
    granted bld (caps k) = true ->
    numeric arg = true ->
    1 <= parsed_pid arg ->
    attach_return k <> -1 ->
    wait_outcome (parsed_pid arg) (waits k) <> Done true ->
    run_path bld k (prog :: arg :: rest)
      (after_failed_wait (wait_outcome (parsed_pid arg) (waits k)))
      (prelude bld k (parsed_pid arg)
       ++ waitpid_trace (parsed_pid arg) armed_table false (waits k))%list
| path_exit_observed prog arg rest :
    granted bld (caps k) = true ->
    numeric arg = true ->
    1 <= parsed_pid arg ->
    attach_return k <> -1 ->
    wait_outcome (parsed_pid arg) (waits k) = Done true ->
    run_path bld k (prog :: arg :: rest)
      (Done (extraction_code k))
      (prelude bld k (parsed_pid arg)
       ++ waitpid_trace (parsed_pid arg) armed_table false (waits k)
       ++ closing k (parsed_pid arg))%list.

(** The process a call names, if it names one. *)
Definition target_of (e : event) : option Z :=
  match e with
  | Ptrace _ t | Waitpid t | Waitid t => Some t
  | _ => None
  end.

Definition is_waitpid_call (e : event) : bool :=
  match e with Waitpid _ => true | _ => false end.

Definition is_geteventmsg (e : event) : bool :=
  match e with Ptrace PTRACE_GETEVENTMSG _ => true | _ => false end.

Definition is_detach (e : event) : bool :=
  match e with Ptrace PTRACE_DETACH _ => true | _ => false end.


(** *** Classification of what a waitid call meets

    [Some true]: a filled-in result, trapped by the tracer, whose status is
    the exit event; [Some false]: the call fails, leaves [si_pid] at 0, or
    is interrupted; [None]: anything else, which the loop passes over. *)
Inductive waitid_class (d : termsig -> sigdisp)
    : waitid_result -> option bool -> Prop :=
| idclass_exit sp :
    sp <> 0 ->
    waitid_class d
      (IdReturned 0 sp CLD_TRAPPED PTRACE_EXIT_SIGINFO_STATUS) (Some true)
| idclass_failed r sp sc ss :
    r <> 0 -> waitid_class d (IdReturned r sp sc ss) (Some false)
| idclass_unfilled sc ss :
    waitid_class d (IdReturned 0 0 sc ss) (Some false)
| idclass_interrupted s :
    d s = Handler_detach -> waitid_class d (IdSignalled s) (Some false)
| idclass_other sp sc ss :
    sp <> 0 ->
    ~ (sc = CLD_TRAPPED /\ ss = PTRACE_EXIT_SIGINFO_STATUS) ->
    waitid_class d (IdReturned 0 sp sc ss) None
| idclass_ignored s :
    d s = SIG_IGN -> waitid_class d (IdSignalled s) None.

(** ** Sample runs *)

Module Sample.

Definition linux : build :=
  {| have_CAP_SYS_PTRACE := true; have_PTRACE_SEIZE := true |}.

(** The capability is already effective (the installed binary carries
    [cap_sys_ptrace+ep]). *)
Definition held : libcap :=
  {| cap_is_supported := true; cap_get_proc_ok := true;
     effective_before := Some CAP_SET; permitted := Some CAP_SET;
     cap_set_flag_ok := true; cap_set_proc_ok := true;
     effective_after := Some CAP_SET; cap_free_ok := true |}.

(** Permitted but not effective; raised by the program. *)
Definition raisable : libcap :=
  {| cap_is_supported := true; cap_get_proc_ok := true;
     effective_before := Some CAP_CLEAR; permitted := Some CAP_SET;
     cap_set_flag_ok := true; cap_set_proc_ok := true;
     effective_after := Some CAP_SET; cap_free_ok := true |}.

(** As [raisable], but the final [cap_free] fails. *)
Definition raised_free_fails : libcap :=
  {| cap_is_supported := true; cap_get_proc_ok := true;
     effective_before := Some CAP_CLEAR; permitted := Some CAP_SET;
     cap_set_flag_ok := true; cap_set_proc_ok := true;
     effective_after := Some CAP_SET; cap_free_ok := false |}.

(** Neither effective nor permitted: an unprivileged caller. *)
Definition denied : libcap :=
  {| cap_is_supported := true; cap_get_proc_ok := true;
     effective_before := Some CAP_CLEAR; permitted := Some CAP_CLEAR;
     cap_set_flag_ok := true; cap_set_proc_ok := true;
     effective_after := Some CAP_CLEAR; cap_free_ok := true |}.

(** Status of a SIGSTOP stop, [0x137f], and of the exit event,
    [0x6057f]. *)
Definition stop_status : Z := 4991.
Definition exit_status : Z := 394623.

Definition a_kernel (lc : libcap) (rs : list wait_result) (m : option Z)
    : kernel :=
  {| caps := lc; inherited_sigterm := SIG_DFL; inherited_sigint := SIG_IGN;
     attach_return := 0; waits := rs; eventmsg := m |}.

(** Target 1234 stops once, then exits; the event message is 42. *)
Definition exits_42 : kernel :=
  a_kernel held [Returned 1234 stop_status; Returned 1234 exit_status]
           (Some 42).

(** Target 1234 stops once, then calls [exit (42)]. *)
Definition exits_with_code_42 : kernel :=
  a_kernel held [Returned 1234 stop_status; Returned 1234 exit_status]
           (Some (exit_message 42)).


(** Ctrl+C while the program waits. *)
Definition interrupted : kernel :=
  a_kernel held [Returned 1234 stop_status; Signalled SIGINT] (Some 42).

(** The wait call fails. *)
Definition wait_fails : kernel :=
  a_kernel held [Failed] (Some 42).

Definition unprivileged : kernel :=
  a_kernel denied [Returned 1234 exit_status] (Some 42).

End Sample.

(** * Properties *)

Arguments substring : simpl never.
Arguments fmt_d : simpl never.
Arguments fmt_x : simpl never.

(** ** Integer conversions *)

Lemma to_int_range z : in_int (to_int z).
Proof.
  unfold in_int, to_int, INT_MIN, INT_MAX.
  pose proof (Z.mod_pos_bound (z + 2 ^ 31) (2 ^ 32) ltac:(lia)). lia.
Qed.

Lemma to_int_id z : in_int z -> to_int z = z.
Proof.
  unfold in_int, to_int, INT_MIN, INT_MAX. intros H.
  rewrite Z.mod_small; lia.
Qed.

(** ** The log only grows *)

Lemma push_nil w : push [] w = w.
Proof. destruct w; reflexivity. Qed.

Lemma push_push evs evs' w : push evs (push evs' w) = push (evs ++ evs') w.
Proof. unfold push; simpl. now rewrite app_assoc. Qed.

Lemma emit_push e w : emit e w = (Done tt, push [e] w).
Proof. reflexivity. Qed.

Lemma dprint_push m w :
  dprint m w = (Done tt, push [Stderr (substring 0 1023 m ++ nl)] w).
Proof. reflexivity. Qed.

(** ** Privilege negotiation *)

(** The function always returns, with the verdict [granted], and only adds
    its own events to the log. *)
Lemma prepare_capabilities_run bld lc w :
  prepare_capabilities bld lc w
  = (Done (granted bld lc), push (rev (negotiation_events bld lc)) w).
Proof.
  destruct bld as [[] ?]; [|reflexivity].
  destruct lc as [[] [] eb pm sf sp ea fr]; try reflexivity.
  destruct eb as [[]|]; try (destruct fr; reflexivity).
  destruct pm as [[]|]; try (destruct fr; reflexivity).
  destruct sf; try (destruct fr; reflexivity).
  destruct sp; try (destruct fr; reflexivity).
  destruct ea as [[]|]; destruct fr; reflexivity.
Qed.

(** ** The wait loops keep to themselves *)


Lemma disposition_push s evs w : disposition s (push evs w) = disposition s w.
Proof. destruct s; reflexivity. Qed.

Lemma framed_ret {A} (a : A) : framed (ret a).
Proof. intros w. exists []. split; [now rewrite push_nil | constructor]. Qed.

Lemma framed_blocked {A} : framed (@blocked A).
Proof. intros w. exists []. split; [now rewrite push_nil | constructor]. Qed.

Lemma framed_get_pid : framed get_pid.
Proof. intros w. exists []. split; [now rewrite push_nil | constructor]. Qed.

Lemma framed_emit e : is_wait_event e = true -> framed (emit e).
Proof.
  intros H w. exists [e]. split; [reflexivity | repeat constructor; exact H].
Qed.

Lemma framed_dprint m : framed (dprint m).
Proof. now apply framed_emit. Qed.

Lemma framed_bind {A B} (m : M A) (f : A -> M B) :
  framed m -> (forall a, framed (f a)) -> framed (bind m f).
Proof.
  intros Hm Hf w. unfold bind. destruct (Hm w) as [e1 [E1 Q1]].
  destruct (m w) as [[a| |s] w1]; cbn [snd] in *; subst w1.
  - destruct (Hf a (push e1 w)) as [e2 [E2 Q2]]. rewrite E2, push_push.
    eexists; split; [reflexivity|]. apply Forall_app; auto.
  - eauto.
  - eauto.
Qed.

Lemma framed_if {A} (c : bool) (m1 m2 : M A) :
  framed m1 -> framed m2 -> framed (if c then m1 else m2).
Proof. destruct c; auto. Qed.

Lemma framed_deliver s : framed (deliver s).
Proof.
  intros w. unfold deliver. destruct (disposition s w).
  - exists []. split; [now rewrite push_nil | constructor].
  - exists []. split; [now rewrite push_nil | constructor].
  - apply framed_bind; [|intros; apply framed_ret].
    unfold detach. apply framed_bind; [apply framed_get_pid|].
    intros; now apply framed_emit.
Qed.

Create HintDb framed.
#[local] Hint Resolve framed_ret framed_blocked framed_dprint framed_get_pid
  framed_deliver framed_if : framed.

Ltac framed_steps :=
  repeat (first [ apply framed_if
                | apply framed_bind; [|intros ?]
                | apply framed_emit; reflexivity ];
          auto with framed).

Lemma framed_waitpid_turn rp st again :
  framed again -> framed (waitpid_turn rp st again).
Proof. intros H. unfold waitpid_turn. framed_steps. Qed.

Lemma framed_waitid_turn r sp sc ss again :
  framed again -> framed (waitid_turn r sp sc ss again).
Proof. intros H. unfold waitid_turn. framed_steps. Qed.

Lemma framed_waitpid_loop rs : forall resumed, framed (waitpid_loop resumed rs).
Proof.
  induction rs as [|r rs IH]; intros resumed; cbn [waitpid_loop].
  - framed_steps.
  - apply framed_bind; [framed_steps|]. intros _. destruct r.
    + apply framed_waitpid_turn; auto.
    + apply framed_waitpid_turn; auto with framed.
    + apply framed_bind; auto with framed. intros b. apply framed_if; auto.
      apply framed_waitpid_turn; auto with framed.
Qed.

(** ** The wait loops, turn by turn *)

Lemma enter_waitpid (resumed : bool) w :
  (if resumed then ret tt else bind get_pid (fun p => emit (Waitpid p))) w
  = (Done tt, push (if resumed then [] else [Waitpid (pid w)]) w).
Proof. destruct resumed; [now rewrite push_nil | reflexivity]. Qed.

Lemma enter_waitid (resumed : bool) w :
  (if resumed then ret tt else bind get_pid (fun p => emit (Waitid p))) w
  = (Done tt, push (if resumed then [] else [Waitid (pid w)]) w).
Proof. destruct resumed; [now rewrite push_nil | reflexivity]. Qed.

Lemma deliver_eq s w :
  deliver s w =
  match disposition s w with
  | Handler_detach => (Done true, push [Ptrace PTRACE_DETACH (pid w)] w)
  | SIG_IGN => (Done false, w)
  | SIG_DFL => (Killed s, w)
  end.
Proof. unfold deliver. destruct (disposition s w); reflexivity. Qed.

Lemma waitpid_turn_fst rp st again w :
  fst (waitpid_turn rp st again w) =
  if rp =? -1 then Done false
  else if negb (rp =? pid w) then Done false
  else if WIFSTOPPED st && (Z.shiftr st 8 =? PTRACE_EXIT_SIGINFO_STATUS)
       then Done true
       else fst (again (push [Stderr (substring 0 1023
                                        ("return status " ++ fmt_x st) ++ nl)] w)).
Proof.
  cbv [waitpid_turn bind get_pid ret].
  destruct (rp =? -1); [reflexivity|].
  destruct (negb (rp =? pid w)); [reflexivity|].
  rewrite dprint_push.
  destruct (WIFSTOPPED st && _); reflexivity.
Qed.

Lemma waitid_turn_fst r sp sc ss again w :
  fst (waitid_turn r sp sc ss again w) =
  if negb (r =? 0) then Done false
  else if sp =? 0 then Done false
  else if (sc =? CLD_TRAPPED) && (ss =? PTRACE_EXIT_SIGINFO_STATUS)
       then Done true
       else fst (again (push [Stderr (substring 0 1023
                                        ("siginfo status " ++ fmt_x ss) ++ nl)] w)).
Proof.
  cbv [waitid_turn bind get_pid ret].
  destruct (negb (r =? 0)); [reflexivity|].
  destruct (sp =? 0); [reflexivity|].
  rewrite dprint_push.
  destruct (_ && _); reflexivity.
Qed.

(** The outcome of the loop depends on the target and the signal table
    only, and is what [scan] computes. *)
Lemma waitpid_loop_scan rs : forall resumed w,
  fst (waitpid_loop resumed rs w) = scan (pid w) (fun s => disposition s w) rs.
Proof.
  unfold scan.
  induction rs as [|r rs IH]; intros resumed w.
  - destruct resumed; reflexivity.
  - cbn [waitpid_loop follow]. unfold bind at 1. rewrite enter_waitpid.
    set (w1 := push _ w).
    destruct r as [rp st| |s]; cbn [turn_of].
    + rewrite waitpid_turn_fst. change (pid w1) with (pid w).
      destruct (rp =? -1); [reflexivity|].
      destruct (negb (rp =? pid w)); [reflexivity|].
      destruct (WIFSTOPPED st && _); [reflexivity|].
      rewrite IH. reflexivity.
    + rewrite waitpid_turn_fst. reflexivity.
    + unfold bind, signal_turn. rewrite deliver_eq. subst w1.
      rewrite disposition_push.
      destruct (disposition s w) eqn:E.
      * reflexivity.
      * rewrite IH. reflexivity.
      * rewrite waitpid_turn_fst. reflexivity.
Qed.

Lemma waitid_loop_scan rs : forall resumed w,
  fst (waitid_loop resumed rs w) = scan_id (fun s => disposition s w) rs.
Proof.
  unfold scan_id.
  induction rs as [|r rs IH]; intros resumed w.
  - destruct resumed; reflexivity.
  - cbn [waitid_loop follow]. unfold bind at 1. rewrite enter_waitid.
    set (w1 := push _ w).
    destruct r as [r sp sc ss|s]; cbn [turn_of_id].
    + rewrite waitid_turn_fst.
      destruct (negb (r =? 0)); [reflexivity|].
      destruct (sp =? 0); [reflexivity|].
      destruct (_ && _); [reflexivity|].
      rewrite IH. reflexivity.
    + unfold bind, signal_turn. rewrite deliver_eq. subst w1.
      rewrite disposition_push.
      destruct (disposition s w) eqn:E.
      * reflexivity.
      * rewrite IH. reflexivity.
      * rewrite waitid_turn_fst. reflexivity.
Qed.

Lemma follow_ext {R} (t t' : R -> turn) rs :
  (forall r, t r = t' r) -> follow t rs = follow t' rs.
Proof.
  intros H. induction rs as [|r rs IH]; cbn [follow]; [reflexivity|].
  rewrite H, IH. reflexivity.
Qed.

Lemma turn_of_ext p d d' r :
  (forall s, d s = d' s) -> turn_of p d r = turn_of p d' r.
Proof.
  intros H. destruct r; cbn [turn_of]; try reflexivity.
  unfold signal_turn. now rewrite H.
Qed.

(** What the wait step of [main] does, started in any world whose handlers
    are armed. *)
Lemma wait_using_waitpid_armed rs w :
  on_sigterm w = Handler_detach -> on_sigint w = Handler_detach ->
  exists evs,
    wait_using_waitpid rs w = (wait_outcome (pid w) rs, push evs w) /\ quiet evs.
Proof.
  intros Ht Hi. destruct (framed_waitpid_loop rs false w) as [evs [E Q]].
  exists evs. split; [|exact Q].
  unfold wait_outcome, wait_using_waitpid in *.
  rewrite (surjective_pairing (waitpid_loop false rs w)), E. f_equal.
  rewrite !waitpid_loop_scan. cbn [pid watching].
  apply follow_ext. intros r. apply turn_of_ext.
  intros []; cbn [disposition watching on_sigterm on_sigint]; assumption.
Qed.

(** ** Classification of the turns *)

Lemma exit_event_status_iff st :
  WIFSTOPPED st && (Z.shiftr st 8 =? PTRACE_EXIT_SIGINFO_STATUS) = true
  <-> exit_event_status st.
Proof.
  unfold exit_event_status, WIFSTOPPED, PTRACE_EXIT_SIGINFO_STATUS.
  rewrite andb_true_iff, !Z.eqb_eq. tauto.
Qed.

Lemma turn_of_done p d r b :
  turn_of p d r = TurnDone b <-> wait_class p d r (Some b).
Proof.
  split.
  - destruct r as [rp st| |s]; cbn [turn_of].
    + destruct (Z.eqb_spec rp (-1)) as [->|Hm].
      { intros [= <-]. constructor. }
      destruct (Z.eqb_spec rp p) as [->|Hp]; cbn [negb].
      2:{ intros [= <-]. now constructor. }
      destruct (WIFSTOPPED st && _) eqn:E; [|discriminate].
      intros [= <-]. constructor; [assumption | now apply exit_event_status_iff].
    + intros [= <-]. constructor.
    + unfold signal_turn. destruct (d s) eqn:E; try discriminate.
      intros [= <-]. now constructor.
  - intros H. inversion H; subst; cbn [turn_of].
    + destruct (Z.eqb_spec p (-1)); [contradiction|].
      rewrite Z.eqb_refl. cbn [negb].
      now rewrite (proj2 (exit_event_status_iff st)).
    + reflexivity.
    + reflexivity.
    + destruct (Z.eqb_spec rp (-1)); [reflexivity|].
      destruct (Z.eqb_spec rp p); [contradiction | reflexivity].
    + unfold signal_turn.
      match goal with H : d _ = _ |- _ => now rewrite H end.
Qed.

Lemma turn_of_again p d r :
  turn_of p d r = TurnAgain <-> wait_class p d r None.
Proof.
  split.
  - destruct r as [rp st| |s]; cbn [turn_of].
    + destruct (Z.eqb_spec rp (-1)) as [->|Hm]; [discriminate|].
      destruct (Z.eqb_spec rp p) as [->|Hp]; cbn [negb]; [|discriminate].
      destruct (WIFSTOPPED st && _) eqn:E; [discriminate|].
      intros _. constructor; [assumption|].
      intros Hx. apply exit_event_status_iff in Hx. congruence.
    + discriminate.
    + unfold signal_turn. destruct (d s) eqn:E; try discriminate.
      intros _. now constructor.
  - intros H. inversion H; subst; cbn [turn_of].
    + destruct (Z.eqb_spec p (-1)); [contradiction|].
      rewrite Z.eqb_refl. cbn [negb].
      destruct (WIFSTOPPED st && _) eqn:E; [|reflexivity].
      apply exit_event_status_iff in E. contradiction.
    + unfold signal_turn.
      match goal with H : d _ = _ |- _ => now rewrite H end.
Qed.

Lemma scan_done p d rs b :
  scan p d rs = Done b <->
  exists pre r post,
    rs = (pre ++ r :: post)%list /\
    Forall (fun x => wait_class p d x None) pre /\
    wait_class p d r (Some b).
Proof.
  unfold scan.
  induction rs as [|r rs IH]; cbn [follow].
  - split; [discriminate|]. intros (pre & r & post & E & _). now destruct pre.
  - destruct (turn_of p d r) eqn:T.
    + split.
      * intros [= <-]. exists [], r, rs.
        repeat split; [constructor | now apply turn_of_done].
      * intros (pre & r' & post & E & Hpre & Hr).
        destruct pre as [|x pre]; cbn in E.
        -- injection E as <- <-. apply turn_of_done in Hr. congruence.
        -- injection E as <- ->. apply Forall_inv in Hpre.
           apply turn_of_again in Hpre. congruence.
    + rewrite IH. split.
      * intros (pre & r' & post & -> & Hpre & Hr). exists (r :: pre), r', post.
        repeat split;
          [constructor; [now apply turn_of_again | assumption] | assumption].
      * intros (pre & r' & post & E & Hpre & Hr).
        destruct pre as [|x pre]; cbn in E.
        -- injection E as <- <-. apply turn_of_done in Hr. congruence.
        -- injection E as <- ->. apply Forall_inv_tail in Hpre.
           now exists pre, r', post.
    + split; [discriminate|].
      intros (pre & r' & post & E & Hpre & Hr).
      destruct pre as [|x pre]; cbn in E.
      * injection E as <- <-. apply turn_of_done in Hr. congruence.
      * injection E as <- ->. apply Forall_inv in Hpre.
        apply turn_of_again in Hpre. congruence.
Qed.

(** C5.  The waitpid-based loop returns success exactly when, after any
    number of results it passes over, it meets the confirmed exit event (a
    stopped status of the target whose value shifted right by 8 is
    [SIGTRAP | (PTRACE_EVENT_EXIT << 8)]), and failure exactly when, after
    any number of results it passes over, it meets an unrecoverable error
    (the call returning -1, also when a handled signal interrupts it, or a
    process id other than the target's); every other stop of the target is
    passed over. *)
Theorem wait_using_waitpid_returns rs w b :
  fst (wait_using_waitpid rs w) = Done b <->
  exists pre r post,
    rs = (pre ++ r :: post)%list /\
    Forall (fun x => wait_class (pid w) (fun s => disposition s w) x None) pre /\
    wait_class (pid w) (fun s => disposition s w) r (Some b).
Proof.
  unfold wait_using_waitpid. rewrite waitpid_loop_scan. apply scan_done.
Qed.

Lemma wait_using_waitpid_returns_witness :
  exists pre r post,
    [Returned 5 Sample.stop_status; Returned 5 Sample.exit_status]
    = (pre ++ r :: post)%list /\
    Forall (fun x => wait_class 5 (fun s => disposition s (watching 5)) x None)
           pre /\
    wait_class 5 (fun s => disposition s (watching 5)) r (Some true).
Proof.
  apply (proj1 (wait_using_waitpid_returns
                  [Returned 5 Sample.stop_status; Returned 5 Sample.exit_status]
                  (watching 5) true)).
  reflexivity.
Defined.

(** ** [main], stage by stage *)

Lemma argc_two {A} (a b : A) l :
  (Z.of_nat (List.length (a :: b :: l)) <? 2) = false.
Proof. apply Z.ltb_ge. cbn [List.length]. lia. Qed.

(** Negotiation has failed: [main] returns 1 at once. *)
Lemma run_denied bld k prog arg rest :
  granted bld (caps k) = false ->
  run bld k (prog :: arg :: rest)
  = (Done 1, push (rev (negotiation_events bld (caps k))) (initial_world k)).
Proof.
  intros Hg. unfold run, main. rewrite argc_two.
  unfold bind at 1. rewrite prepare_capabilities_run, Hg. reflexivity.
Qed.

(** The argument is not a number: [pid] is assigned 0, one line, return 1. *)
Lemma run_not_numeric bld k prog arg rest :
  granted bld (caps k) = true ->
  numeric arg = false ->
  run bld k (prog :: arg :: rest)
  = (Done 1,
     {| pid := parsed_pid arg;
        on_sigterm := inherited_sigterm k; on_sigint := inherited_sigint k;
        log := line "First argument must be a numeric PID"
               :: rev (negotiation_events bld (caps k)) |}).
Proof.
  intros Hg Hn. unfold run, main. rewrite argc_two. cbn [nth].
  unfold bind at 1. rewrite prepare_capabilities_run, Hg. cbn [negb].
  unfold numeric in Hn. apply negb_false_iff in Hn.
  unfold bind at 1. cbn [set_pid]. rewrite Hn.
  unfold bind. rewrite dprint_push.
  cbn [push pid on_sigterm on_sigint log initial_world app ret].
  rewrite app_nil_r. reflexivity.
Qed.

(** The argument is a number below 1. *)
Lemma run_not_positive bld k prog arg rest :
  granted bld (caps k) = true ->
  numeric arg = true ->
  parsed_pid arg < 1 ->
  run bld k (prog :: arg :: rest)
  = (Done 1,
     {| pid := parsed_pid arg;
        on_sigterm := inherited_sigterm k; on_sigint := inherited_sigint k;
        log := line ("Invalid process ID " ++ fmt_d (parsed_pid arg)
                     ++ " passed as first argument")
               :: rev (negotiation_events bld (caps k)) |}).
Proof.
  intros Hg Hn Hp. unfold run, main. rewrite argc_two. cbn [nth].
  unfold bind at 1. rewrite prepare_capabilities_run, Hg. cbn [negb].
  unfold numeric in Hn. apply negb_true_iff in Hn.
  fold (parsed_pid arg).
  unfold bind at 1. cbn [set_pid]. rewrite Hn.
  unfold bind at 1. cbn [get_pid pid].
  destruct (Z.ltb_spec (parsed_pid arg) 1); [|lia].
  unfold bind. rewrite dprint_push.
  cbn [push pid on_sigterm on_sigint log initial_world app ret].
  rewrite app_nil_r. reflexivity.
Qed.

Section Reaching_the_wait.

Variables (bld : build) (k : kernel) (prog arg : string) (rest : list string).
Let p := parsed_pid arg.
Hypothesis Hgranted : granted bld (caps k) = true.
Hypothesis Hnumeric : numeric arg = true.
Hypothesis Hpositive : 1 <= parsed_pid arg.

(** The attach call fails. *)
Lemma run_attach_failed :
  attach_return k = -1 ->
  run bld k (prog :: arg :: rest)
  = (Done 1,
     push [line ("Error setting ptrace on process " ++ fmt_d p)]
          (armed bld k p)).
Proof.
  intros Ha.
  unfold run, main. rewrite argc_two. cbn [nth].
  unfold bind at 1. rewrite prepare_capabilities_run, Hgranted. cbn [negb].
  unfold numeric in Hnumeric. apply negb_true_iff in Hnumeric.
  fold (parsed_pid arg). fold p.
  unfold bind at 1. cbn [set_pid]. rewrite Hnumeric.
  unfold bind at 1. cbn [get_pid pid].
  destruct (Z.ltb_spec p 1); [unfold p in *; lia|].
  unfold bind at 1.
  cbn [sigaction disposition on_sigterm on_sigint pid log push initial_world].
  unfold bind at 1.
  cbn [sigaction disposition on_sigterm on_sigint pid log push initial_world].
  unfold bind at 1. rewrite dprint_push.
  unfold bind at 1. rewrite emit_push.
  rewrite Ha. cbn [Z.eqb Pos.eqb].
  unfold bind. rewrite dprint_push.
  cbn [push pid on_sigterm on_sigint log app ret].
  rewrite app_nil_r. reflexivity.
Qed.

Hypothesis Hattached : attach_return k <> -1.

(** From the wait step on, [main] is the rest of its body, run in
    [armed]. *)
Lemma run_to_wait :
  run bld k (prog :: arg :: rest)
  = bind (wait_using_waitpid (waits k))
      (fun waited =>
         if negb waited then ret 1
         else bind (dprint "Wait successful") (fun _ =>
              bind (sigaction SIGTERM (inherited_sigterm k)) (fun _ =>
              bind (sigaction SIGINT (inherited_sigint k)) (fun _ =>
              bind (get_tracee_exit_status k) (fun tracee_exit_code =>
              bind (dprint "Got exit code") (fun _ =>
              if tracee_exit_code =? -1 then ret 1
              else bind (emit (Stdout (success_line p tracee_exit_code)))
                        (fun _ => ret 0)))))))
      (armed bld k p).
Proof.
  unfold run, main. rewrite argc_two. cbn [nth].
  unfold bind at 1. rewrite prepare_capabilities_run, Hgranted. cbn [negb].
  unfold numeric in Hnumeric. apply negb_true_iff in Hnumeric.
  fold (parsed_pid arg). fold p.
  unfold bind at 1. cbn [set_pid]. rewrite Hnumeric.
  unfold bind at 1. cbn [get_pid pid].
  destruct (Z.ltb_spec p 1); [unfold p in *; lia|].
  unfold bind at 1.
  cbn [sigaction disposition on_sigterm on_sigint pid log push initial_world].
  unfold bind at 1.
  cbn [sigaction disposition on_sigterm on_sigint pid log push initial_world].
  unfold bind at 1. rewrite dprint_push.
  unfold bind at 1. rewrite emit_push.
  destruct (Z.eqb_spec (attach_return k) (-1)); [contradiction|].
  cbn [push pid on_sigterm on_sigint log app].
  rewrite app_nil_r. reflexivity.
Qed.

(** The wait step does not report the exit event: [main] ends as the wait
    step ends, with 1 when it returns. *)
Lemma run_wait_not_ok o :
  wait_outcome p (waits k) = o -> o <> Done true ->
  exists evs,
    quiet evs /\
    run bld k (prog :: arg :: rest)
    = (match o with Done _ => Done 1 | Blocked => Blocked | Killed s => Killed s end,
       push evs (armed bld k p)).
Proof.
  intros Ho Hne. rewrite run_to_wait.
  destruct (wait_using_waitpid_armed (waits k) (armed bld k p))
    as [evs [E Q]]; try reflexivity.
  exists evs. split; [exact Q|].
  unfold bind at 1. rewrite E. cbn [armed pid]. fold p. rewrite Ho.
  destruct o as [[]| |]; try reflexivity. contradiction.
Qed.

(** The wait step reports the exit event: the handlers are put back, the
    exit status is asked for, and [main] returns by it. *)
Lemma run_exit_observed :
  wait_outcome p (waits k) = Done true ->
  exists evs,
    quiet evs /\
    run bld k (prog :: arg :: rest)
    = (Done (extraction_code k),
       {| pid := p;
          on_sigterm := inherited_sigterm k;
          on_sigint := inherited_sigint k;
          log := extraction_log k p
                 ++ [Sigaction SIGINT (inherited_sigint k);
                     Sigaction SIGTERM (inherited_sigterm k);
                     line "Wait successful"]
                 ++ evs ++ log (armed bld k p) |}).
Proof.
  intros Ho. rewrite run_to_wait.
  destruct (wait_using_waitpid_armed (waits k) (armed bld k p))
    as [evs [E Q]]; try reflexivity.
  exists evs. split; [exact Q|].
  unfold bind at 1. rewrite E. cbn [armed pid]. fold p. rewrite Ho.
  cbn [negb].
  unfold bind at 1. rewrite dprint_push.
  unfold bind at 1.
  cbn [sigaction disposition on_sigterm on_sigint pid log push].
  unfold bind at 1.
  cbn [sigaction disposition on_sigterm on_sigint pid log push].
  unfold extraction_code, extraction_log, get_tracee_exit_status.
  cbv [bind get_pid emit ret dprint]. cbn [pid on_sigterm on_sigint log].
  destruct (eventmsg k) as [m|].
  - destruct (to_int m =? -1); reflexivity.
  - reflexivity.
Qed.

End Reaching_the_wait.

(** The paths of [prepare_capabilities], one goal for each: the answers of
    libcap are split in the order the function asks for them, and [tac]
    closes every path. *)
Ltac negotiation_paths bld lc tac :=
  let fr := fresh "fr" in
  destruct bld as [[] ?]; [|solve [tac]];
  destruct lc as [[] [] [[]|] pm sf sp ea fr]; try solve [tac];
  try solve [destruct fr; tac];
  destruct pm as [[]|]; try solve [tac]; try solve [destruct fr; tac];
  destruct sf; try solve [destruct fr; tac];
  destruct sp; try solve [destruct fr; tac];
  destruct ea as [[]|]; destruct fr; solve [tac].

(** ** Reading the log *)

Lemma stdout_of_app l m : stdout_of (l ++ m) = (stdout_of l ++ stdout_of m)%list.
Proof.
  induction l as [|e l IH]; [reflexivity|].
  destruct e; cbn [stdout_of app]; rewrite IH; reflexivity.
Qed.

Lemma stdout_of_rev l : stdout_of (rev l) = rev (stdout_of l).
Proof.
  induction l as [|e l IH]; [reflexivity|].
  cbn [rev]. rewrite stdout_of_app, IH.
  destruct e; cbn [stdout_of rev]; now rewrite ?app_nil_r.
Qed.

Lemma stdout_of_none l :
  Forall (fun e => is_stdout e = false) l -> stdout_of l = [].
Proof.
  induction 1 as [|e l He _ IH]; [reflexivity|].
  destruct e; cbn [stdout_of]; try exact IH. discriminate.
Qed.

Lemma quiet_no_stdout evs : quiet evs -> Forall (fun e => is_stdout e = false) evs.
Proof.
  apply Forall_impl. intros [] H; try reflexivity; discriminate.
Qed.

Lemma quiet_no_attach evs : quiet evs -> Forall (fun e => is_attach e = false) evs.
Proof.
  apply Forall_impl. intros [| | | |[]| |] H; try reflexivity; discriminate.
Qed.

Lemma negotiation_events_kind bld lc :
  Forall (fun e => is_negotiation_event e = true) (negotiation_events bld lc).
Proof.
  apply Forall_forall. apply forallb_forall.
  negotiation_paths bld lc ltac:(vm_compute; reflexivity).
Qed.

Lemma negotiation_events_nonempty bld lc : negotiation_events bld lc <> [].
Proof.
  negotiation_paths bld lc ltac:(vm_compute; discriminate).
Qed.

Lemma negotiation_is_local bld lc (f : event -> bool) :
  (forall e, is_negotiation_event e = true -> f e = false) ->
  Forall (fun e => f e = false) (negotiation_events bld lc).
Proof.
  intros H. eapply Forall_impl; [|apply negotiation_events_kind]. exact H.
Qed.

Lemma negotiation_no_target bld lc :
  Forall (fun e => references_target e = false) (negotiation_events bld lc).
Proof. apply negotiation_is_local. intros []; try discriminate; reflexivity. Qed.

Lemma negotiation_no_attach bld lc :
  Forall (fun e => is_attach e = false) (negotiation_events bld lc).
Proof. apply negotiation_is_local. intros []; try discriminate; reflexivity. Qed.

Lemma negotiation_no_sigaction bld lc :
  Forall (fun e => is_sigaction e = false) (negotiation_events bld lc).
Proof. apply negotiation_is_local. intros []; try discriminate; reflexivity. Qed.

Lemma negotiation_no_stdout bld lc :
  Forall (fun e => is_stdout e = false) (negotiation_events bld lc).
Proof. apply negotiation_is_local. intros []; try discriminate; reflexivity. Qed.

(** ** The negotiation *)

(** C7, as stated, fails: with the capability permitted, raised and read
    back as set, a failing [cap_free] makes the function return [FALSE]
    although the last effective state read shows the capability set. *)
Lemma prepare_capabilities_free_counterexample :
  libcap_calls (negotiation_events Sample.linux Sample.raised_free_fails)
  = (negotiation_order ++ [CapFree])%list /\
  effective_after Sample.raised_free_fails = Some CAP_SET /\
  ~ (granted Sample.linux Sample.raised_free_fails = true <->
     effective_before Sample.raised_free_fails = Some CAP_SET \/
     effective_after Sample.raised_free_fails = Some CAP_SET).
Proof.
  split; [reflexivity|]. split; [reflexivity|].
  intros [_ H]. specialize (H (or_intror eq_refl)).
  vm_compute in H. discriminate H.
Qed.

Lemma negotiation_calls_in_order bld lc :
  is_prefix
    (filter (fun c => negb (is_cap_free c))
            (libcap_calls (negotiation_events bld lc)))
    negotiation_order.
Proof.
  negotiation_paths bld lc ltac:(eexists; reflexivity).
Qed.

Lemma negotiation_stops_when_effective bld lc :
  have_CAP_SYS_PTRACE bld = true -> cap_is_supported lc = true ->
  cap_get_proc_ok lc = true -> effective_before lc = Some CAP_SET ->
  libcap_calls (negotiation_events bld lc)
  = [CapIsSupported; CapGetProc; CapGetFlag CAP_EFFECTIVE].
Proof.
  destruct bld as [hc hs], lc as [a b c d e f g h]. cbn.
  intros -> -> -> ->. reflexivity.
Qed.

Lemma negotiation_raises_only_if_permitted bld lc :
  permitted lc <> Some CAP_SET ->
  ~ In CapSetFlag (libcap_calls (negotiation_events bld lc)) /\
  ~ In CapSetProc (libcap_calls (negotiation_events bld lc)).
Proof.
  negotiation_paths bld lc
    ltac:(cbn; intros Hp; first [ congruence | intuition discriminate ]).
Qed.

Lemma granted_iff bld lc :
  granted bld lc = true <->
  have_CAP_SYS_PTRACE bld = true /\
  cap_is_supported lc = true /\
  cap_get_proc_ok lc = true /\
  (effective_before lc = Some CAP_SET \/
   effective_before lc = Some CAP_CLEAR /\
   permitted lc = Some CAP_SET /\
   cap_set_flag_ok lc = true /\
   cap_set_proc_ok lc = true /\
   effective_after lc = Some CAP_SET /\
   cap_free_ok lc = true).
Proof.
  negotiation_paths bld lc ltac:(cbn; intuition congruence).
Qed.

(** C7, amended.  [prepare_capabilities] always returns a boolean and does
    nothing but libcap calls and diagnostics; its calls, [cap_free] apart,
    are an initial part of the order supported, effective, permitted,
    raise, re-check; it stops after the effective check when that shows the
    capability set, and raises nothing unless the permitted check shows it
    set; and it returns true exactly when the first effective check shows
    the capability set, or the re-check shows it set and the final release
    of the capability structure succeeds. *)
Theorem prepare_capabilities_verdict bld lc w :
  prepare_capabilities bld lc w
  = (Done (granted bld lc), push (rev (negotiation_events bld lc)) w) /\
  Forall (fun e => is_negotiation_event e = true) (negotiation_events bld lc) /\
  is_prefix
    (filter (fun c => negb (is_cap_free c))
            (libcap_calls (negotiation_events bld lc)))
    negotiation_order /\
  (have_CAP_SYS_PTRACE bld = true -> cap_is_supported lc = true ->
   cap_get_proc_ok lc = true -> effective_before lc = Some CAP_SET ->
   libcap_calls (negotiation_events bld lc)
   = [CapIsSupported; CapGetProc; CapGetFlag CAP_EFFECTIVE]) /\
  (permitted lc <> Some CAP_SET ->
   ~ In CapSetFlag (libcap_calls (negotiation_events bld lc)) /\
   ~ In CapSetProc (libcap_calls (negotiation_events bld lc))) /\
  (granted bld lc = true <->
   have_CAP_SYS_PTRACE bld = true /\
   cap_is_supported lc = true /\
   cap_get_proc_ok lc = true /\
   (effective_before lc = Some CAP_SET \/
    effective_before lc = Some CAP_CLEAR /\
    permitted lc = Some CAP_SET /\
    cap_set_flag_ok lc = true /\
    cap_set_proc_ok lc = true /\
    effective_after lc = Some CAP_SET /\
    cap_free_ok lc = true)).
Proof.
  split; [apply prepare_capabilities_run|].
  split; [apply negotiation_events_kind|].
  split; [apply negotiation_calls_in_order|].
  split; [apply negotiation_stops_when_effective|].
  split; [apply negotiation_raises_only_if_permitted|].
  apply granted_iff.
Qed.

Lemma prepare_capabilities_verdict_witness :
  granted Sample.linux Sample.raisable = true /\
  granted Sample.linux Sample.denied = false.
Proof.
  destruct (prepare_capabilities_verdict Sample.linux Sample.raisable blank)
    as (_ & _ & _ & _ & _ & H).
  split.
  - apply H. repeat split; try reflexivity. right. repeat split; reflexivity.
  - reflexivity.
Defined.

(** ** Runs that end before the attach *)

Lemma events_denied bld k prog arg rest :
  granted bld (caps k) = false ->
  events (run bld k (prog :: arg :: rest)) = negotiation_events bld (caps k).
Proof.
  intros Hg. unfold events, trace. rewrite run_denied by exact Hg.
  cbn [snd push log initial_world]. now rewrite app_nil_r, rev_involutive.
Qed.

(** C8.  When the privilege negotiation fails, the run is the negotiation
    and nothing else: no attach or seize call, no call naming a target at
    all, and exit code 1. *)
Theorem no_attach_without_privilege bld k argv :
  (2 <= List.length argv)%nat ->
  granted bld (caps k) = false ->
  exit_code (run bld k argv) = Done 1 /\
  events (run bld k argv) = negotiation_events bld (caps k) /\
  Forall (fun e => is_attach e = false) (events (run bld k argv)) /\
  Forall (fun e => references_target e = false) (events (run bld k argv)).
Proof.
  intros Hlen Hg.
  destruct argv as [|prog [|arg rest]]; cbn [List.length] in Hlen; try lia.
  rewrite events_denied by exact Hg.
  split; [unfold exit_code; now rewrite run_denied|].
  split; [reflexivity|].
  split; [apply negotiation_no_attach | apply negotiation_no_target].
Qed.

Lemma no_attach_without_privilege_witness :
  exit_code (run Sample.linux Sample.unprivileged ["pwait"; "1234"]) = Done 1 /\
  events (run Sample.linux Sample.unprivileged ["pwait"; "1234"])
  = negotiation_events Sample.linux (caps Sample.unprivileged) /\
  Forall (fun e => is_attach e = false)
         (events (run Sample.linux Sample.unprivileged ["pwait"; "1234"])) /\
  Forall (fun e => references_target e = false)
         (events (run Sample.linux Sample.unprivileged ["pwait"; "1234"])).
Proof.
  apply (no_attach_without_privilege Sample.linux Sample.unprivileged
           ["pwait"; "1234"]).
  - cbn [List.length]. lia.
  - reflexivity.
Defined.

(** C2, as stated, fails: the argument [abc] is not a number, and the run
    does not end with code 2. *)
Lemma non_numeric_argument_counterexample :
  numeric "abc" = false /\
  ~ (exit_code (run Sample.linux Sample.exits_42 ["pwait"; "abc"]) = Done 2 /\
     Forall (fun e => references_target e = false)
            (events (run Sample.linux Sample.exits_42 ["pwait"; "abc"]))).
Proof.
  split; [reflexivity|]. intros [H _]. vm_compute in H. discriminate H.
Qed.

(** C2, amended.  When the first argument does not begin with a number
    ([strtol] converts nothing: after white space and an optional sign
    there is no digit), the program exits with code 1, and no attach is
    attempted: no system call naming a target id is issued.  (An argument
    that begins with a number is read as that number, whatever follows it:
    see [leading_number_is_accepted].) *)
Theorem non_numeric_argument_fails bld k prog arg rest :
  numeric arg = false ->
  exit_code (run bld k (prog :: arg :: rest)) = Done 1 /\
  Forall (fun e => is_attach e = false) (events (run bld k (prog :: arg :: rest))) /\
  Forall (fun e => references_target e = false)
         (events (run bld k (prog :: arg :: rest))).
Proof.
  intros Hn. destruct (granted bld (caps k)) eqn:Hg.
  - unfold exit_code, events, trace. rewrite run_not_numeric by assumption.
    cbn [fst snd log rev]. rewrite rev_involutive.
    split; [reflexivity|].
    split; (apply Forall_app; split; [|repeat constructor]).
    + apply negotiation_no_attach.
    + apply negotiation_no_target.
  - rewrite events_denied by exact Hg.
    split; [unfold exit_code; now rewrite run_denied|].
    split; [apply negotiation_no_attach | apply negotiation_no_target].
Qed.

Lemma non_numeric_argument_fails_witness :
  exit_code (run Sample.linux Sample.exits_42 ["pwait"; "abc"]) = Done 1 /\
  Forall (fun e => is_attach e = false)
         (events (run Sample.linux Sample.exits_42 ["pwait"; "abc"])) /\
  Forall (fun e => references_target e = false)
         (events (run Sample.linux Sample.exits_42 ["pwait"; "abc"])).
Proof.
  apply (non_numeric_argument_fails Sample.linux Sample.exits_42
           "pwait" "abc" []).
  reflexivity.
Defined.

(** C3, as stated, fails: the argument [0] parses to id 0; the run ends
    with code 1, not 2, and the capability negotiation has been executed. *)
Lemma nonpositive_id_counterexample :
  numeric "0" = true /\ parsed_pid "0" = 0 /\
  ~ (exit_code (run Sample.linux Sample.exits_42 ["pwait"; "0"]) = Done 2) /\
  ~ Forall (fun e => is_libcap e = false)
           (events (run Sample.linux Sample.exits_42 ["pwait"; "0"])).
Proof.
  split; [reflexivity|]. split; [reflexivity|]. split.
  - intros H. vm_compute in H. discriminate H.
  - intros H. apply Forall_inv in H. vm_compute in H. discriminate H.
Qed.

(** C3, amended.  When the first argument parses to id 0 or to a negative
    id, the program exits with code 1; the privilege negotiation is executed
    first (the run begins with its events), and the run ends before any
    signal handler is installed and before any call naming a target. *)
Theorem nonpositive_id_fails bld k prog arg rest :
  numeric arg = true ->
  parsed_pid arg < 1 ->
  exit_code (run bld k (prog :: arg :: rest)) = Done 1 /\
  is_prefix (negotiation_events bld (caps k))
            (events (run bld k (prog :: arg :: rest))) /\
  negotiation_events bld (caps k) <> [] /\
  Forall (fun e => is_sigaction e = false)
         (events (run bld k (prog :: arg :: rest))) /\
  Forall (fun e => references_target e = false)
         (events (run bld k (prog :: arg :: rest))).
Proof.
  intros Hn Hp. destruct (granted bld (caps k)) eqn:Hg.
  - unfold exit_code, events, trace. rewrite run_not_positive by assumption.
    cbn [fst snd log rev]. rewrite rev_involutive.
    split; [reflexivity|].
    split; [eexists; reflexivity|].
    split; [apply negotiation_events_nonempty|].
    split; (apply Forall_app; split; [|repeat constructor]).
    + apply negotiation_no_sigaction.
    + apply negotiation_no_target.
  - rewrite events_denied by exact Hg.
    split; [unfold exit_code; now rewrite run_denied|].
    split; [exists []; now rewrite app_nil_r|].
    split; [apply negotiation_events_nonempty|].
    split; [apply negotiation_no_sigaction | apply negotiation_no_target].
Qed.

Lemma nonpositive_id_fails_witness :
  exit_code (run Sample.linux Sample.exits_42 ["pwait"; "-7"]) = Done 1 /\
  is_prefix (negotiation_events Sample.linux (caps Sample.exits_42))
            (events (run Sample.linux Sample.exits_42 ["pwait"; "-7"])) /\
  negotiation_events Sample.linux (caps Sample.exits_42) <> [] /\
  Forall (fun e => is_sigaction e = false)
         (events (run Sample.linux Sample.exits_42 ["pwait"; "-7"])) /\
  Forall (fun e => references_target e = false)
         (events (run Sample.linux Sample.exits_42 ["pwait"; "-7"])).
Proof.
  apply (nonpositive_id_fails Sample.linux Sample.exits_42 "pwait" "-7" []).
  - reflexivity.
  - vm_compute. reflexivity.
Defined.

(** ** Runs that reach the wait *)




Lemma stdout_of_armed bld k p : stdout_of (log (armed bld k p)) = [].
Proof.
  cbn [armed log app stdout_of line].
  rewrite stdout_of_rev, stdout_of_none; [reflexivity|].
  apply negotiation_no_stdout.
Qed.

Section After_the_wait.

Variables (bld : build) (k : kernel) (prog arg : string) (rest : list string).
Let p := parsed_pid arg.
Let r := run bld k (prog :: arg :: rest).
Hypothesis Hgranted : granted bld (caps k) = true.
Hypothesis Hnumeric : numeric arg = true.
Hypothesis Hpositive : 1 <= parsed_pid arg.
Hypothesis Hattached : attach_return k <> -1.

(** After the exit event: the code and the output are those of the
    extraction. *)
Lemma report_after_exit :
  wait_outcome p (waits k) = Done true ->
  exit_code r = Done (extraction_code k) /\
  stdout_of (events r)
  = match eventmsg k with
    | Some m => if to_int m =? -1 then [] else [success_line p (to_int m)]
    | None => []
    end.
Proof.
  intros Ho.
  destruct (run_exit_observed bld k prog arg rest Hgranted Hnumeric
              Hpositive Hattached Ho) as [evs [Q E]].
  unfold r, exit_code, events, trace. rewrite E. cbn [fst snd log].
  split; [reflexivity|].
  rewrite stdout_of_rev, !stdout_of_app, stdout_of_armed.
  rewrite (stdout_of_none evs) by now apply quiet_no_stdout.
  unfold extraction_log. fold p.
  destruct (eventmsg k) as [m|]; [|reflexivity].
  destruct (to_int m =? -1); reflexivity.
Qed.

(** After the exit event: the handlers are as they were inherited, and
    were put back between the wait and the extraction. *)
Lemma handlers_after_exit :
  wait_outcome p (waits k) = Done true ->
  on_sigterm (snd r) = inherited_sigterm k /\
  on_sigint (snd r) = inherited_sigint k /\
  exists before after,
    events r
    = (before
       ++ [line "Wait successful";
           Sigaction SIGTERM (inherited_sigterm k);
           Sigaction SIGINT (inherited_sigint k);
           Ptrace PTRACE_GETEVENTMSG p]
       ++ after)%list.
Proof.
  intros Ho.
  destruct (run_exit_observed bld k prog arg rest Hgranted Hnumeric
              Hpositive Hattached Ho) as [evs [Q E]].
  unfold r, events, trace. rewrite E. cbn [snd log on_sigterm on_sigint].
  split; [reflexivity|]. split; [reflexivity|].
  exists (rev (evs ++ log (armed bld k (parsed_pid arg)))).
  unfold extraction_log. fold p.
  destruct (eventmsg k) as [m|].
  - exists (line "Got exit code"
            :: rev (if to_int m =? -1 then []
                    else [Stdout (success_line p (to_int m))])).
    rewrite !rev_app_distr. cbn [rev app]. rewrite <- !app_assoc.
    reflexivity.
  - eexists. rewrite !rev_app_distr. cbn [rev app]. rewrite <- !app_assoc.
    reflexivity.
Qed.

(** The wait step fails: [main] returns 1 with the handler still armed. *)
Lemma handlers_after_failure :
  wait_outcome p (waits k) = Done false ->
  exit_code r = Done 1 /\
  stdout_of (events r) = [] /\
  on_sigterm (snd r) = Handler_detach /\
  on_sigint (snd r) = Handler_detach.
Proof.
  intros Ho.
  destruct (run_wait_not_ok bld k prog arg rest Hgranted Hnumeric
              Hpositive Hattached _ Ho) as [evs [Q E]]; [discriminate|].
  unfold r, exit_code, events, trace. rewrite E.
  cbn [fst snd push log on_sigterm on_sigint armed].
  repeat split.
  change (stdout_of (rev (evs ++ log (armed bld k (parsed_pid arg)))) = []).
  rewrite stdout_of_rev, stdout_of_app, stdout_of_armed.
  rewrite (stdout_of_none evs) by now apply quiet_no_stdout. reflexivity.
Qed.


End After_the_wait.

(** ** The report *)

(** C1 fails on the code.  For a positive target id that the caller is
    privileged to trace (the negotiation grants the capability and the
    attach succeeds), when the wait observes the exit of a target that
    called [exit (code)], with [0 <= code <= 255], the program exits 0 and
    writes one line, but the number on it is the event message as the
    kernel keeps it, [256 * code], not [code]: [get_tracee_exit_status]
    returns the message without taking the exit status out of it.  Only
    the code 0 is reported as it is. *)
Theorem exit_code_is_printed_unshifted bld k prog arg rest code :
  granted bld (caps k) = true ->
  numeric arg = true ->
  1 <= parsed_pid arg ->
  attach_return k <> -1 ->
  wait_outcome (parsed_pid arg) (waits k) = Done true ->
  0 <= code <= 255 ->
  eventmsg k = Some (exit_message code) ->
  exit_code (run bld k (prog :: arg :: rest)) = Done 0 /\
  stdout_of (events (run bld k (prog :: arg :: rest)))
  = [success_line (parsed_pid arg) (256 * code)] /\
  (256 * code = code <-> code = 0).
Proof.
  intros Hg Hn Hp Ha Hw Hc Hm.
  destruct (report_after_exit bld k prog arg rest Hg Hn Hp Ha Hw) as [E O].
  rewrite E, O. unfold extraction_code. rewrite Hm.
  assert (Hx : exit_message code = 256 * code).
  { unfold exit_message. change 255 with (Z.ones 8).
    rewrite Z.land_ones by lia. rewrite Z.mod_small by (cbn; lia).
    rewrite Z.shiftl_mul_pow2 by lia. change (2 ^ 8) with 256. lia. }
  assert (Hid : to_int (exit_message code) = 256 * code)
    by (rewrite Hx; apply to_int_id; unfold in_int, INT_MIN, INT_MAX; lia).
  rewrite Hid. destruct (Z.eqb_spec (256 * code) (-1)); [lia|].
  split; [reflexivity|]. split; [reflexivity | lia].
Qed.

Lemma exit_code_is_printed_unshifted_witness :
  exit_code (run Sample.linux Sample.exits_with_code_42 ["pwait"; "1234"])
  = Done 0 /\
  stdout_of (events (run Sample.linux Sample.exits_with_code_42
                       ["pwait"; "1234"]))
  = ["Process 1234 exited with code 10752" ++ nl] /\
  stdout_of (events (run Sample.linux Sample.exits_with_code_42
                       ["pwait"; "1234"]))
  <> ["Process 1234 exited with code 42" ++ nl].
Proof.
  destruct (exit_code_is_printed_unshifted Sample.linux
              Sample.exits_with_code_42 "pwait" "1234" [] 42)
    as (H1 & H2 & _).
  - reflexivity.
  - reflexivity.
  - vm_compute. discriminate.
  - discriminate.
  - reflexivity.
  - lia.
  - reflexivity.
  - split; [exact H1|]. split; [exact H2|].
    rewrite H2. vm_compute. discriminate.
Defined.



(** ** The signal handlers *)

(** C9, as stated, fails: when the wait call fails, the run ends with the
    [detach] handler still installed for both signals. *)
Lemma handlers_not_restored_counterexample :
  wait_outcome 1234 (waits Sample.wait_fails) = Done false /\
  ~ (on_sigterm (snd (run Sample.linux Sample.wait_fails ["pwait"; "1234"]))
     = inherited_sigterm Sample.wait_fails /\
     on_sigint (snd (run Sample.linux Sample.wait_fails ["pwait"; "1234"]))
     = inherited_sigint Sample.wait_fails).
Proof.
  split; [reflexivity|]. intros [H _]. vm_compute in H. discriminate H.
Qed.

(** C9, amended.  When the wait step returns success, the handlers that
    were installed before for SIGTERM and SIGINT are put back, right after
    the wait and before the exit status is asked for, whatever the
    extraction then gives; when the wait step returns failure (an error or
    an interruption), [main] returns 1 at once and the [detach] handler
    stays installed. *)
Theorem handlers_restored_after_exit_event bld k prog arg rest :
  granted bld (caps k) = true ->
  numeric arg = true ->
  1 <= parsed_pid arg ->
  attach_return k <> -1 ->
  (wait_outcome (parsed_pid arg) (waits k) = Done true ->
   on_sigterm (snd (run bld k (prog :: arg :: rest))) = inherited_sigterm k /\
   on_sigint (snd (run bld k (prog :: arg :: rest))) = inherited_sigint k /\
   exists before after,
     events (run bld k (prog :: arg :: rest))
     = (before
        ++ [line "Wait successful";
            Sigaction SIGTERM (inherited_sigterm k);
            Sigaction SIGINT (inherited_sigint k);
            Ptrace PTRACE_GETEVENTMSG (parsed_pid arg)]
        ++ after)%list) /\
  (wait_outcome (parsed_pid arg) (waits k) = Done false ->
   exit_code (run bld k (prog :: arg :: rest)) = Done 1 /\
   on_sigterm (snd (run bld k (prog :: arg :: rest))) = Handler_detach /\
   on_sigint (snd (run bld k (prog :: arg :: rest))) = Handler_detach).
Proof.
  intros Hg Hn Hp Ha. split; intros Hw.
  - exact (handlers_after_exit bld k prog arg rest Hg Hn Hp Ha Hw).
  - destruct (handlers_after_failure bld k prog arg rest Hg Hn Hp Ha Hw)
      as (H1 & _ & H2 & H3).
    auto.
Qed.

Lemma handlers_restored_after_exit_event_witness :
  on_sigterm (snd (run Sample.linux Sample.exits_42 ["pwait"; "1234"])) = SIG_DFL /\
  on_sigint (snd (run Sample.linux Sample.exits_42 ["pwait"; "1234"])) = SIG_IGN.
Proof.
  destruct (handlers_restored_after_exit_event Sample.linux Sample.exits_42
              "pwait" "1234" []) as [H _].
  - reflexivity.
  - reflexivity.
  - vm_compute. discriminate.
  - discriminate.
  - destruct (H eq_refl) as (H1 & H2 & _). split; [exact H1 | exact H2].
Defined.



(** ** The two wait strategies *)

Lemma trap_status c :
  0 <= c < 2 ^ 23 ->
  to_int (Z.lor (Z.shiftl c 8) 127) = c * 256 + 127.
Proof.
  intros Hc.
  assert (L : Z.land (Z.shiftl c 8) 127 = 0).
  { change 127 with (Z.ones 7). rewrite Z.land_ones by lia.
    rewrite Z.shiftl_mul_pow2 by lia.
    change (2 ^ 8) with (2 * 2 ^ 7). rewrite Z.mul_assoc.
    apply Z_mod_mult. }
  pose proof (Z.add_lor_land (Z.shiftl c 8) 127) as A. rewrite L in A.
  rewrite Z.shiftl_mul_pow2 in A by lia. change (2 ^ 8) with 256 in A.
  rewrite Z.shiftl_mul_pow2 in * by lia. change (2 ^ 8) with 256 in *.
  replace (Z.lor (c * 256) 127) with (c * 256 + 127) by lia.
  apply to_int_id. unfold in_int, INT_MIN, INT_MAX. lia.
Qed.

Lemma trap_status_stopped c :
  0 <= c < 2 ^ 23 -> WIFSTOPPED (to_int (Z.lor (Z.shiftl c 8) 127)) = true.
Proof.
  intros Hc. rewrite trap_status by exact Hc. unfold WIFSTOPPED.
  apply Z.eqb_eq. change 255 with (Z.ones 8). rewrite Z.land_ones by lia.
  change (2 ^ 8) with 256. rewrite Z.add_comm, Z_mod_plus_full.
  reflexivity.
Qed.

Lemma trap_status_code c :
  0 <= c < 2 ^ 23 -> Z.shiftr (to_int (Z.lor (Z.shiftl c 8) 127)) 8 = c.
Proof.
  intros Hc. rewrite trap_status by exact Hc.
  rewrite Z.shiftr_div_pow2 by lia. change (2 ^ 8) with 256.
  symmetry. apply Z.div_unique with 127; lia.
Qed.

Lemma exited_status_not_stopped c :
  WIFSTOPPED (Z.shiftl (Z.land c 255) 8) = false.
Proof.
  unfold WIFSTOPPED. apply Z.eqb_neq.
  change 255 with (Z.ones 8) at 2. rewrite Z.land_ones by lia.
  rewrite Z.shiftl_mul_pow2 by lia. rewrite Z_mod_mult. discriminate.
Qed.

(** One turn of either loop on the same observation. *)
Lemma turns_agree p d o :
  p <> 0 -> p <> -1 -> reports p o ->
  turn_of p d (as_waitpid o) = turn_of_id d (as_waitid o).
Proof.
  intros H0 H1 Hr. destruct o as [|rp c|rp c|s]; cbn [as_waitpid as_waitid
    turn_of turn_of_id reports] in *.
  - reflexivity.
  - destruct Hr as [Hrp Hc].
    rewrite trap_status_stopped, trap_status_code by exact Hc.
    rewrite Z.eqb_refl. cbn [negb andb Z.eqb].
    destruct Hrp as [-> | ->].
    + destruct (Z.eqb_spec p (-1)); [contradiction|].
      rewrite Z.eqb_refl. cbn [negb].
      destruct (Z.eqb_spec p 0); [contradiction|]. reflexivity.
    + destruct (Z.eqb_spec 0 p); [congruence|]. reflexivity.
  - rewrite exited_status_not_stopped. cbn [andb negb Z.eqb].
    destruct Hr as [-> | ->].
    + destruct (Z.eqb_spec p (-1)); [contradiction|].
      rewrite Z.eqb_refl. cbn [negb].
      destruct (Z.eqb_spec p 0); [contradiction|]. reflexivity.
    + destruct (Z.eqb_spec 0 p); [congruence|]. reflexivity.
  - reflexivity.
Qed.

Lemma follow_map {R S} (f : R -> S) (t : S -> turn) rs :
  follow t (map f rs) = follow (fun r => t (f r)) rs.
Proof.
  induction rs as [|r rs IH]; cbn [map follow]; [reflexivity|].
  now rewrite IH.
Qed.

Lemma follow_agree {R} (t t' : R -> turn) rs (P : R -> Prop) :
  (forall r, P r -> t r = t' r) -> Forall P rs -> follow t rs = follow t' rs.
Proof.
  intros H. induction 1 as [|r rs Hr _ IH]; cbn [follow]; [reflexivity|].
  now rewrite (H r Hr), IH.
Qed.

(** C6, as stated, fails: on a result that reports another process (7, not
    the target 5) together with the exit-event encoding, the waitpid-based
    loop fails and the waitid-based loop succeeds. *)
Lemma wait_strategies_counterexample :
  fst (wait_using_waitpid
         (map as_waitpid [ObsTrap 7 PTRACE_EXIT_SIGINFO_STATUS]) (watching 5))
  = Done false /\
  fst (wait_using_waitid
         (map as_waitid [ObsTrap 7 PTRACE_EXIT_SIGINFO_STATUS]) (watching 5))
  = Done true /\
  fst (wait_using_waitpid
         (map as_waitpid [ObsTrap 7 PTRACE_EXIT_SIGINFO_STATUS]) (watching 5))
  <> fst (wait_using_waitid
            (map as_waitid [ObsTrap 7 PTRACE_EXIT_SIGINFO_STATUS]) (watching 5)).
Proof.
  split; [reflexivity|]. split; [reflexivity|].
  intros H. vm_compute in H. discriminate H.
Qed.

(** C6, amended.  On every sequence of wait results whose reported process
    id is the target's or 0, the waitpid-based and the waitid-based loop end
    alike (both succeed, both fail, both still wait); and both accept the
    same encoding of the exit event, the stop code
    [SIGTRAP | (PTRACE_EVENT_EXIT << 8)], and no other stop code.  (On a
    result that reports another, non-zero process id they differ: the
    waitpid-based loop rejects it, the waitid-based loop rejects only the
    id 0.) *)
Theorem wait_strategies_agree obs w :
  1 <= pid w ->
  Forall (reports (pid w)) obs ->
  fst (wait_using_waitpid (map as_waitpid obs) w)
  = fst (wait_using_waitid (map as_waitid obs) w) /\
  forall c, 0 <= c < 2 ^ 23 ->
    (fst (wait_using_waitpid [as_waitpid (ObsTrap (pid w) c)] w) = Done true
     <-> c = PTRACE_EXIT_SIGINFO_STATUS) /\
    (fst (wait_using_waitid [as_waitid (ObsTrap (pid w) c)] w) = Done true
     <-> c = PTRACE_EXIT_SIGINFO_STATUS).
Proof.
  intros Hp Hobs. unfold wait_using_waitpid, wait_using_waitid.
  split.
  - rewrite waitpid_loop_scan, waitid_loop_scan. unfold scan, scan_id.
    rewrite !follow_map.
    apply follow_agree with (P := reports (pid w)); [|exact Hobs].
    intros o Ho. apply turns_agree; [lia | lia | exact Ho].
  - intros c Hc.
    rewrite waitpid_loop_scan, waitid_loop_scan. unfold scan, scan_id.
    cbn [follow].
    rewrite <- (turns_agree (pid w) (fun s => disposition s w)
                  (ObsTrap (pid w) c)) by (cbn; auto; lia).
    cbn [as_waitpid turn_of].
    rewrite trap_status_stopped, trap_status_code by exact Hc.
    destruct (Z.eqb_spec (pid w) (-1)); [lia|].
    rewrite Z.eqb_refl. cbn [negb andb].
    destruct (Z.eqb_spec c PTRACE_EXIT_SIGINFO_STATUS) as [->|Hne].
    + split; split; reflexivity.
    + split; split; intros H; try discriminate H; contradiction.
Qed.

Lemma wait_strategies_agree_witness :
  fst (wait_using_waitpid
         (map as_waitpid [ObsTrap 5 19; ObsTrap 5 PTRACE_EXIT_SIGINFO_STATUS])
         (watching 5))
  = fst (wait_using_waitid
           (map as_waitid [ObsTrap 5 19; ObsTrap 5 PTRACE_EXIT_SIGINFO_STATUS])
           (watching 5)).
Proof.
  destruct (wait_strategies_agree
              [ObsTrap 5 19; ObsTrap 5 PTRACE_EXIT_SIGINFO_STATUS] (watching 5))
    as [H _].
  - cbn [watching pid]. lia.
  - repeat constructor; cbn [watching pid]; vm_compute;
      try discriminate; auto.
  - exact H.
Defined.

(** ** The model at work *)

Example strtol_decimal :
  Strtol.strtol0 "42" = {| Strtol.value := 42; Strtol.endpos := 2 |}.
Proof. reflexivity. Qed.

Example strtol_no_digits : Strtol.strtol0 "abc" = Strtol.no_conversion.
Proof. reflexivity. Qed.

Example strtol_sign_only : Strtol.strtol0 "  -" = Strtol.no_conversion.
Proof. reflexivity. Qed.

Example strtol_hexadecimal :
  Strtol.strtol0 " -0x1F!" = {| Strtol.value := -31; Strtol.endpos := 6 |}.
Proof. reflexivity. Qed.

Example strtol_0x_without_digit :
  Strtol.strtol0 "0xg" = {| Strtol.value := 0; Strtol.endpos := 1 |}.
Proof. reflexivity. Qed.

Example strtol_octal :
  Strtol.strtol0 "017" = {| Strtol.value := 15; Strtol.endpos := 3 |}.
Proof. reflexivity. Qed.

Example strtol_saturates :
  Strtol.value (Strtol.strtol0 "99999999999999999999") = LONG_MAX.
Proof. reflexivity. Qed.

(** An argument that begins with a number is read as that number. *)
Example leading_number_is_accepted :
  numeric "12abc" = true /\ parsed_pid "12abc" = 12 /\
  In (Ptrace PTRACE_SEIZE 12)
     (events (run Sample.linux Sample.exits_42 ["pwait"; "12abc"])).
Proof. split; [reflexivity|]. split; [reflexivity|]. vm_compute. tauto. Qed.

(** The conversion to [pid_t] wraps: 2^32 + 1 is the process 1. *)
Example pid_wraps : parsed_pid "4294967297" = 1.
Proof. reflexivity. Qed.

Example exit_status_is_exit_event : exit_event_status Sample.exit_status.
Proof. split; reflexivity. Qed.

Example run_exit_42 :
  events (run Sample.linux Sample.exits_42 ["pwait"; "1234"])
  = [Libcap CapIsSupported; Libcap CapGetProc;
     Libcap (CapGetFlag CAP_EFFECTIVE);
     line "process has CAP_SYS_PTRACE";
     Sigaction SIGTERM Handler_detach; Sigaction SIGINT Handler_detach;
     line "Attempting to set ptrace on process 1234";
     Ptrace PTRACE_SEIZE 1234;
     Waitpid 1234; line "return status 137f";
     Waitpid 1234; line "return status 6057f";
     line "Wait successful";
     Sigaction SIGTERM SIG_DFL; Sigaction SIGINT SIG_IGN;
     Ptrace PTRACE_GETEVENTMSG 1234;
     line "Got exit code";
     Stdout ("Process 1234 exited with code 42" ++ nl)].
Proof. vm_compute. reflexivity. Qed.

Example run_without_argument :
  exit_code (run Sample.linux Sample.exits_42 ["pwait"]) = Done 2 /\
  events (run Sample.linux Sample.exits_42 ["pwait"])
  = [Stderr ("Usage: pwait pid" ++ nl)].
Proof. split; reflexivity. Qed.

(** * Further properties *)

(** ** The exact log of the waitpid loop *)

Lemma outcome_true_dec (o : outcome bool) : {o = Done true} + {o <> Done true}.
Proof. destruct o as [[]| |s]; (now left) || (right; discriminate). Qed.

Lemma push_rev_app a b w :
  push (rev (a ++ b)) w = push (rev b) (push (rev a) w).
Proof. now rewrite push_push, rev_app_distr. Qed.

Lemma push_rev_cons e t w : push (rev (e :: t)) w = push (rev t) (push [e] w).
Proof. cbn [rev]. now rewrite push_push. Qed.

Lemma waitpid_turn_eq rp st again w :
  waitpid_turn rp st again w =
  if rp =? -1 then
    (Done false, push [line ("Error waiting for process " ++ fmt_d (pid w))] w)
  else if negb (rp =? pid w) then
    (Done false,
     push [line ("waitpid returned wrong process ID " ++ fmt_d rp
                 ++ " (expected " ++ fmt_d (pid w) ++ ")")] w)
  else if WIFSTOPPED st && (Z.shiftr st 8 =? PTRACE_EXIT_SIGINFO_STATUS)
       then (Done true, push [line ("return status " ++ fmt_x st)] w)
       else again (push [line ("return status " ++ fmt_x st)] w).
Proof.
  cbv [waitpid_turn bind get_pid ret].
  destruct (rp =? -1); [reflexivity|].
  destruct (negb (rp =? pid w)); [reflexivity|].
  rewrite dprint_push.
  destruct (WIFSTOPPED st && _); reflexivity.
Qed.

(** The loop ends as [scan] says and adds [waitpid_trace] to the log. *)
Lemma waitpid_loop_eq rs : forall resumed w,
  waitpid_loop resumed rs w
  = (scan (pid w) (fun s => disposition s w) rs,
     push (rev (waitpid_trace (pid w) (fun s => disposition s w) resumed rs)) w).
Proof.
  unfold scan.
  induction rs as [|r rs IH]; intros resumed w.
  - destruct resumed; cbn; [now rewrite push_nil | reflexivity].
  - cbn [waitpid_loop follow waitpid_trace]. unfold bind at 1.
    rewrite enter_waitpid, push_rev_app.
    replace (rev (if resumed then [] else [Waitpid (pid w)]))
      with (if resumed then [] else [Waitpid (pid w)])
      by (destruct resumed; reflexivity).
    set (w1 := push _ w).
    destruct r as [rp st| |s]; cbn [turn_of].
    + rewrite waitpid_turn_eq. change (pid w1) with (pid w).
      destruct (rp =? -1); [reflexivity|].
      destruct (negb (rp =? pid w)); [reflexivity|].
      destruct (WIFSTOPPED st && _); [reflexivity|].
      rewrite IH, push_rev_cons. reflexivity.
    + rewrite waitpid_turn_eq. reflexivity.
    + unfold bind, signal_turn. rewrite deliver_eq. subst w1.
      rewrite disposition_push.
      destruct (disposition s w) eqn:E.
      * rewrite push_nil. reflexivity.
      * rewrite IH. reflexivity.
      * rewrite waitpid_turn_eq. cbn [Z.eqb Pos.eqb rev app].
        rewrite push_push. reflexivity.
Qed.

Lemma waitpid_trace_ext p d d' rs : forall resumed,
  (forall s, d s = d' s) ->
  waitpid_trace p d resumed rs = waitpid_trace p d' resumed rs.
Proof.
  induction rs as [|r rs IH]; intros resumed H; [reflexivity|].
  cbn [waitpid_trace]. destruct r as [rp st| |s]; try reflexivity.
  - now rewrite (IH false H).
  - rewrite H. now rewrite (IH true H).
Qed.

Lemma scan_armed p rs w :
  pid w = p ->
  on_sigterm w = Handler_detach -> on_sigint w = Handler_detach ->
  scan (pid w) (fun s => disposition s w) rs = wait_outcome p rs.
Proof.
  intros <- Ht Hi. unfold wait_outcome, wait_using_waitpid.
  rewrite waitpid_loop_scan. cbn [pid watching]. unfold scan.
  apply follow_ext. intros r. apply turn_of_ext.
  intros []; cbn [disposition watching on_sigterm on_sigint]; assumption.
Qed.

(** The wait step of [main]. *)
Lemma wait_using_waitpid_in_main bld k p :
  wait_using_waitpid (waits k) (armed bld k p)
  = (wait_outcome p (waits k),
     push (rev (waitpid_trace p armed_table false (waits k))) (armed bld k p)).
Proof.
  unfold wait_using_waitpid. rewrite waitpid_loop_eq.
  rewrite (scan_armed p) by reflexivity.
  rewrite (waitpid_trace_ext _ _ armed_table) by (intros []; reflexivity).
  reflexivity.
Qed.

Lemma rev_log_armed bld k p : rev (log (armed bld k p)) = prelude bld k p.
Proof.
  unfold armed, prelude. cbn [log]. rewrite rev_app_distr, rev_involutive.
  reflexivity.
Qed.

Lemma run_wait_failed_exact bld k prog arg rest :
  granted bld (caps k) = true ->
  numeric arg = true ->
  1 <= parsed_pid arg ->
  attach_return k <> -1 ->
  wait_outcome (parsed_pid arg) (waits k) <> Done true ->
  run bld k (prog :: arg :: rest)
  = (after_failed_wait (wait_outcome (parsed_pid arg) (waits k)),
     push (rev (waitpid_trace (parsed_pid arg) armed_table false (waits k)))
          (armed bld k (parsed_pid arg))).
Proof.
  intros Hg Hn Hp Ha Ho. rewrite run_to_wait by assumption.
  unfold bind at 1. rewrite wait_using_waitpid_in_main.
  destruct (wait_outcome (parsed_pid arg) (waits k)) as [[]| |s];
    try reflexivity.
  contradiction.
Qed.

Lemma run_exit_observed_exact bld k prog arg rest :
  granted bld (caps k) = true ->
  numeric arg = true ->
  1 <= parsed_pid arg ->
  attach_return k <> -1 ->
  wait_outcome (parsed_pid arg) (waits k) = Done true ->
  run bld k (prog :: arg :: rest)
  = (Done (extraction_code k),
     {| pid := parsed_pid arg;
        on_sigterm := inherited_sigterm k;
        on_sigint := inherited_sigint k;
        log := extraction_log k (parsed_pid arg)
               ++ [Sigaction SIGINT (inherited_sigint k);
                   Sigaction SIGTERM (inherited_sigterm k);
                   line "Wait successful"]
               ++ rev (waitpid_trace (parsed_pid arg) armed_table false
                         (waits k))
               ++ log (armed bld k (parsed_pid arg)) |}).
Proof.
  intros Hg Hn Hp Ha Ho. rewrite run_to_wait by assumption.
  unfold bind at 1. rewrite wait_using_waitpid_in_main, Ho.
  cbn [negb].
  unfold bind at 1. rewrite dprint_push.
  unfold bind at 1.
  cbn [sigaction disposition on_sigterm on_sigint pid log push armed].
  unfold bind at 1.
  cbn [sigaction disposition on_sigterm on_sigint pid log push].
  unfold extraction_code, extraction_log, get_tracee_exit_status.
  cbv [bind get_pid emit ret dprint]. cbn [pid on_sigterm on_sigint log].
  destruct (eventmsg k) as [m|].
  - destruct (to_int m =? -1); reflexivity.
  - reflexivity.
Qed.

(** Every run takes one of the seven paths. *)
Lemma run_follows_path bld k argv :
  run_path bld k argv (exit_code (run bld k argv)) (events (run bld k argv)).
Proof.
  destruct argv as [|prog [|arg rest]].
  - apply (path_usage bld k []). cbn. lia.
  - apply (path_usage bld k [prog]). cbn. lia.
  - destruct (granted bld (caps k)) eqn:Hg.
    2:{ rewrite events_denied by exact Hg. unfold exit_code.
        rewrite run_denied by exact Hg. now apply path_denied. }
    destruct (numeric arg) eqn:Hn.
    2:{ unfold exit_code, events, trace.
        rewrite run_not_numeric by assumption.
        cbn [fst snd log rev]. rewrite rev_involutive.
        now apply path_not_numeric. }
    destruct (Z.lt_ge_cases (parsed_pid arg) 1) as [Hp|Hp].
    { unfold exit_code, events, trace.
      rewrite run_not_positive by assumption.
      cbn [fst snd log rev]. rewrite rev_involutive.
      now apply path_not_positive. }
    destruct (Z.eq_dec (attach_return k) (-1)) as [Ha|Ha].
    { unfold exit_code, events, trace.
      rewrite run_attach_failed by assumption.
      cbn [fst snd push log app rev]. rewrite rev_log_armed.
      now apply path_attach_failed. }
    destruct (outcome_true_dec (wait_outcome (parsed_pid arg) (waits k)))
      as [Ho|Ho].
    + unfold exit_code, events, trace.
      rewrite run_exit_observed_exact by assumption.
      cbn [fst snd log].
      rewrite !rev_app_distr, rev_involutive, rev_log_armed.
      rewrite <- !app_assoc.
      now apply path_exit_observed.
    + unfold exit_code, events, trace.
      rewrite run_wait_failed_exact by assumption.
      cbn [fst snd push log].
      rewrite rev_app_distr, rev_involutive, rev_log_armed.
      now apply path_wait_failed.
Qed.

(** ** What the pieces of a run contain *)

Lemma waitpid_trace_kind p d rs : forall resumed,
  Forall (fun e => e = Waitpid p \/ e = Ptrace PTRACE_DETACH p
                   \/ exists m, e = line m)
         (waitpid_trace p d resumed rs).
Proof.
  assert (W : forall resumed : bool,
            Forall (fun e => e = Waitpid p \/ e = Ptrace PTRACE_DETACH p
                             \/ exists m, e = line m)
                   (if resumed then [] else [Waitpid p]))
    by (intros []; [constructor | constructor; [now left | constructor]]).
  assert (L : forall m l,
            Forall (fun e => e = Waitpid p \/ e = Ptrace PTRACE_DETACH p
                             \/ exists m, e = line m) l ->
            Forall (fun e => e = Waitpid p \/ e = Ptrace PTRACE_DETACH p
                             \/ exists m, e = line m) (line m :: l))
    by (intros m l H; constructor; [right; right; now exists m | exact H]).
  induction rs as [|r rs IH]; intros resumed; cbn [waitpid_trace];
    (apply Forall_app; split; [apply W|]).
  - constructor.
  - destruct r as [rp st| |s].
    + destruct (rp =? -1); [apply L; constructor|].
      destruct (negb (rp =? p)); [apply L; constructor|].
      apply L. destruct (WIFSTOPPED st && _); [constructor | apply IH].
    + apply L; constructor.
    + destruct (d s); [constructor | apply IH |].
      constructor; [right; now left | apply L; constructor].
Qed.

Lemma waitpid_trace_only (f : event -> bool) p d resumed rs :
  f (Waitpid p) = false -> f (Ptrace PTRACE_DETACH p) = false ->
  (forall m, f (line m) = false) ->
  Forall (fun e => f e = false) (waitpid_trace p d resumed rs).
Proof.
  intros Hw Hd Hl. eapply Forall_impl; [|apply waitpid_trace_kind].
  intros e [-> | [-> | [m ->]]]; auto.
Qed.

Lemma filter_none {A} (f : A -> bool) l :
  Forall (fun e => f e = false) l -> filter f l = [].
Proof.
  induction 1 as [|e l He _ IH]; [reflexivity|].
  cbn [filter]. now rewrite He.
Qed.

Lemma stdout_of_prelude bld k p : stdout_of (prelude bld k p) = [].
Proof.
  unfold prelude. rewrite stdout_of_app.
  rewrite stdout_of_none by apply negotiation_no_stdout. reflexivity.
Qed.

Lemma stdout_of_waitpid_trace p d resumed rs :
  stdout_of (waitpid_trace p d resumed rs) = [].
Proof.
  apply stdout_of_none. now apply waitpid_trace_only.
Qed.

Lemma stdout_of_closing k p :
  stdout_of (closing k p)
  = match eventmsg k with
    | Some m => if to_int m =? -1 then [] else [success_line p (to_int m)]
    | None => []
    end.
Proof.
  unfold closing, extraction_log.
  destruct (eventmsg k) as [m|]; [|reflexivity].
  destruct (to_int m =? -1); reflexivity.
Qed.

(** With the handler armed for both signals, no signal ends the process. *)
Lemma wait_outcome_not_killed p rs s : wait_outcome p rs <> Killed s.
Proof.
  unfold wait_outcome, wait_using_waitpid. rewrite waitpid_loop_scan.
  cbn [pid watching]. unfold scan.
  induction rs as [|r rs IH]; cbn [follow]; [discriminate|].
  destruct r as [rp st| |s']; cbn [turn_of].
  - destruct (rp =? -1); [discriminate|].
    destruct (negb (rp =? p)); [discriminate|].
    destruct (WIFSTOPPED st && _); [discriminate | exact IH].
  - discriminate.
  - destruct s'; cbn; discriminate.
Qed.

Lemma extraction_code_cases k :
  extraction_code k = 0 /\ (exists m, eventmsg k = Some m /\ to_int m <> -1)
  \/ extraction_code k = 1
     /\ (eventmsg k = None \/ exists m, eventmsg k = Some m /\ to_int m = -1).
Proof.
  unfold extraction_code. destruct (eventmsg k) as [m|]; [|right; auto].
  destruct (Z.eqb_spec (to_int m) (-1)); [right | left]; eauto.
Qed.

Lemma after_failed_wait_cases o :
  o <> Done true -> (forall s, o <> Killed s) ->
  after_failed_wait o = Done 1 \/ after_failed_wait o = Blocked.
Proof.
  destruct o as [[]| |s]; cbn; intros H K.
  - now destruct H.
  - now left.
  - now right.
  - now destruct (K s).
Qed.

(** Case analysis on the path of a run: the exit and the events of the run
    are replaced by those of each path. *)
Ltac by_path bld k argv :=
  generalize (run_follows_path bld k argv);
  generalize (exit_code (run bld k argv)) (events (run bld k argv));
  let c := fresh "c" in let ev := fresh "ev" in let P := fresh "P" in
  intros c ev P; destruct P.

(** ** Exit codes *)

(** X1.  The program exits with code 2 exactly when it is given no
    argument; it then writes the usage line, with its own name, on the error
    stream, and does nothing else. *)
Theorem usage_error bld k argv :
  (exit_code (run bld k argv) = Done 2 <-> (List.length argv < 2)%nat) /\
  (forall prog, argv = [prog] ->
     events (run bld k argv) = [Stderr ("Usage: " ++ prog ++ " pid" ++ nl)]).
Proof.
  split.
  - by_path bld k argv; cbn [List.length];
      try (split; [discriminate | lia]).
    + tauto.
    + split; [|lia]. intros E.
      destruct (after_failed_wait_cases _ H3
                  (wait_outcome_not_killed _ _)) as [E'|E'];
        rewrite E' in E; discriminate E.
    + split; [|lia]. intros E.
      destruct (extraction_code_cases k) as [[E' _]|[E' _]];
        rewrite E' in E; discriminate E.
  - intros prog ->. reflexivity.
Qed.

(** X2.  Whatever the arguments and the answers of the system, a run ends
    with code 0, 1 or 2, or stays in the wait; SIGINT and SIGTERM arriving
    during the wait never end the program by their default action, whatever
    dispositions it inherited. *)
Theorem exit_codes bld k argv :
  exit_code (run bld k argv) = Done 0 \/
  exit_code (run bld k argv) = Done 1 \/
  exit_code (run bld k argv) = Done 2 \/
  exit_code (run bld k argv) = Blocked.
Proof.
  by_path bld k argv; auto.
  - destruct (after_failed_wait_cases _ H3 (wait_outcome_not_killed _ _))
      as [E|E]; rewrite E; auto.
  - destruct (extraction_code_cases k) as [[E _]|[E _]]; rewrite E; auto.
Qed.

(** X3.  The program exits with code 0 exactly when every stage succeeds:
    an argument is given, the negotiation grants the capability, the
    argument is a number whose [pid_t] value is at least 1, the attach does
    not return -1, the wait ends on the exit event, and the event message
    query succeeds with a message whose [int] value is not -1. *)
Theorem exit_zero_iff bld k argv :
  exit_code (run bld k argv) = Done 0 <->
  exists prog arg rest m,
    argv = prog :: arg :: rest /\
    granted bld (caps k) = true /\
    numeric arg = true /\
    1 <= parsed_pid arg /\
    attach_return k <> -1 /\
    wait_outcome (parsed_pid arg) (waits k) = Done true /\
    eventmsg k = Some m /\
    to_int m <> -1.
Proof.
  by_path bld k argv.
  - split; [discriminate|]. intros (?&?&?&?&->&_). cbn in H. lia.
  - split; [discriminate|]. intros (?&?&?&?&[= <- <- <-]&?&_). congruence.
  - split; [discriminate|]. intros (?&?&?&?&[= <- <- <-]&?&?&_). congruence.
  - split; [discriminate|]. intros (?&?&?&?&[= <- <- <-]&?&?&?&_). lia.
  - split; [discriminate|].
    intros (?&?&?&?&[= <- <- <-]&?&?&?&?&_). contradiction.
  - split.
    + intros E.
      destruct (after_failed_wait_cases _ H3 (wait_outcome_not_killed _ _))
        as [E'|E']; rewrite E' in E; discriminate E.
    + intros (?&?&?&?&[= <- <- <-]&?&?&?&?&?&_). contradiction.
  - split.
    + intros E. destruct (extraction_code_cases k) as [[_ [m [Hm Hne]]]|[E' _]].
      * exists prog, arg, rest, m. auto 10.
      * rewrite E' in E. discriminate E.
    + intros (?&?&?&m&_&_&_&_&_&_&Hm&Hne). unfold extraction_code.
      rewrite Hm. destruct (Z.eqb_spec (to_int m) (-1)); [contradiction|].
      reflexivity.
Qed.

(** X4.  Standard output carries the success line and nothing else: a run
    that exits 0 writes exactly one line, naming the target and the [int]
    value of the event message; every other run writes nothing on standard
    output. *)
Theorem stdout_on_success_only bld k argv :
  (exit_code (run bld k argv) = Done 0 ->
   exists m,
     eventmsg k = Some m /\
     stdout_of (events (run bld k argv))
     = [success_line (parsed_pid (nth 1 argv "")) (to_int m)]) /\
  (exit_code (run bld k argv) <> Done 0 ->
   stdout_of (events (run bld k argv)) = []).
Proof.
  by_path bld k argv.
  - split; [discriminate | reflexivity].
  - split; [discriminate|]. intros _.
    apply stdout_of_none, negotiation_no_stdout.
  - split; [discriminate|]. intros _. rewrite stdout_of_app.
    now rewrite stdout_of_none by apply negotiation_no_stdout.
  - split; [discriminate|]. intros _. rewrite stdout_of_app.
    now rewrite stdout_of_none by apply negotiation_no_stdout.
  - split; [discriminate|]. intros _. rewrite stdout_of_app.
    now rewrite stdout_of_prelude.
  - split.
    + intros E.
      destruct (after_failed_wait_cases _ H3 (wait_outcome_not_killed _ _))
        as [E'|E']; rewrite E' in E; discriminate E.
    + intros _. rewrite stdout_of_app.
      now rewrite stdout_of_prelude, stdout_of_waitpid_trace.
  - rewrite !stdout_of_app, stdout_of_prelude, stdout_of_waitpid_trace,
      stdout_of_closing.
    cbn [nth app]. unfold extraction_code.
    destruct (eventmsg k) as [m|].
    + destruct (to_int m =? -1).
      * split; [discriminate | reflexivity].
      * split; [intros _; now exists m | intros E; now destruct E].
    + split; [discriminate | reflexivity].
Qed.

Lemma stdout_on_success_only_witness :
  stdout_of (events (run Sample.linux Sample.interrupted ["pwait"; "1234"])) = [].
Proof.
  apply (proj2 (stdout_on_success_only Sample.linux Sample.interrupted
                  ["pwait"; "1234"])).
  vm_compute. discriminate.
Defined.

Lemma usage_error_witness :
  events (run Sample.linux Sample.exits_42 ["pwait"])
  = [Stderr ("Usage: pwait pid" ++ nl)].
Proof.
  apply (proj2 (usage_error Sample.linux Sample.exits_42 ["pwait"]) "pwait").
  reflexivity.
Defined.

(** ** The attach *)

(** X5.  When the attach call returns -1, the run is the negotiation, the
    installation of the two handlers, the attach call and one error line;
    the program exits 1 without waiting, and the handlers stay installed. *)
Theorem attach_failure bld k prog arg rest :
  granted bld (caps k) = true ->
  numeric arg = true ->
  1 <= parsed_pid arg ->
  attach_return k = -1 ->
  exit_code (run bld k (prog :: arg :: rest)) = Done 1 /\
  events (run bld k (prog :: arg :: rest))
  = (negotiation_events bld (caps k)
     ++ [Sigaction SIGTERM Handler_detach;
         Sigaction SIGINT Handler_detach;
         line ("Attempting to set ptrace on process " ++ fmt_d (parsed_pid arg));
         Ptrace (attach_request bld) (parsed_pid arg);
         line ("Error setting ptrace on process " ++ fmt_d (parsed_pid arg))])%list /\
  on_sigterm (snd (run bld k (prog :: arg :: rest))) = Handler_detach /\
  on_sigint (snd (run bld k (prog :: arg :: rest))) = Handler_detach.
Proof.
  intros Hg Hn Hp Ha. unfold exit_code, events, trace.
  rewrite run_attach_failed by assumption.
  cbn [fst snd push log app rev on_sigterm on_sigint armed].
  repeat split.
  rewrite ?rev_app_distr, ?rev_involutive. cbn [rev app].
  rewrite <- ?app_assoc. reflexivity.
Qed.

Lemma attach_failure_witness :
  exit_code (run Sample.linux
               {| caps := Sample.held; inherited_sigterm := SIG_DFL;
                  inherited_sigint := SIG_DFL; attach_return := -1;
                  waits := []; eventmsg := None |} ["pwait"; "1234"])
  = Done 1.
Proof.
  apply (attach_failure Sample.linux
           {| caps := Sample.held; inherited_sigterm := SIG_DFL;
              inherited_sigint := SIG_DFL; attach_return := -1;
              waits := []; eventmsg := None |} "pwait" "1234" []).
  - reflexivity.
  - reflexivity.
  - vm_compute. discriminate.
  - reflexivity.
Defined.

Lemma negotiation_no_target_of bld lc :
  Forall (fun e => target_of e = None) (negotiation_events bld lc).
Proof.
  eapply Forall_impl; [|apply negotiation_events_kind].
  intros []; try discriminate; reflexivity.
Qed.

Lemma waitpid_trace_targets p d resumed rs :
  Forall (fun e => forall t, target_of e = Some t -> t = p)
         (waitpid_trace p d resumed rs).
Proof.
  eapply Forall_impl; [|apply waitpid_trace_kind].
  intros e [-> | [-> | [m ->]]] t; cbn; congruence.
Qed.

(** X6.  Every system call of a run that names a process names the one
    parsed from the first argument, and that id is at least 1: the target
    is fixed before the first such call and never changes. *)
Theorem calls_name_the_target bld k argv e t :
  In e (events (run bld k argv)) ->
  target_of e = Some t ->
  t = parsed_pid (nth 1 argv "") /\ 1 <= t.
Proof.
  assert (N : forall l, Forall (fun e => target_of e = None) l ->
                        In e l -> target_of e = Some t -> False).
  { intros l F I E. rewrite Forall_forall in F. rewrite (F e I) in E.
    discriminate E. }
  assert (T : forall p l,
            Forall (fun e => forall t, target_of e = Some t -> t = p) l ->
            In e l -> target_of e = Some t -> t = p).
  { intros p l F I E. rewrite Forall_forall in F. exact (F e I t E). }
  assert (Pre : forall p,
            Forall (fun e => forall t, target_of e = Some t -> t = p)
                   (prelude bld k p)).
  { intros p. unfold prelude. apply Forall_app. split.
    - eapply Forall_impl; [|apply negotiation_no_target_of].
      cbn. intros a Ha u Hu. congruence.
    - repeat constructor; cbn; congruence. }
  assert (Clo : forall p,
            Forall (fun e => forall t, target_of e = Some t -> t = p)
                   (closing k p)).
  { intros p. unfold closing, extraction_log.
    destruct (eventmsg k) as [m|]; [destruct (to_int m =? -1)|];
      repeat constructor; cbn; congruence. }
  by_path bld k argv; intros I E; cbn [nth].
  - destruct I as [<-|[]]. discriminate E.
  - destruct (N _ (negotiation_no_target_of _ _) I E).
  - apply in_app_or in I. destruct I as [I|[<-|[]]]; [|discriminate E].
    destruct (N _ (negotiation_no_target_of _ _) I E).
  - apply in_app_or in I. destruct I as [I|[<-|[]]]; [|discriminate E].
    destruct (N _ (negotiation_no_target_of _ _) I E).
  - apply in_app_or in I. destruct I as [I|[<-|[]]]; [|discriminate E].
    pose proof (T _ _ (Pre _) I E). split; [assumption | lia].
  - apply in_app_or in I. destruct I as [I|I].
    + pose proof (T _ _ (Pre _) I E). split; [assumption | lia].
    + pose proof (T _ _ (waitpid_trace_targets _ _ _ _) I E).
      split; [assumption | lia].
  - apply in_app_or in I. destruct I as [I|I].
    + pose proof (T _ _ (Pre _) I E). split; [assumption | lia].
    + apply in_app_or in I. destruct I as [I|I].
      * pose proof (T _ _ (waitpid_trace_targets _ _ _ _) I E).
        split; [assumption | lia].
      * pose proof (T _ _ (Clo _) I E). split; [assumption | lia].
Qed.

Lemma calls_name_the_target_witness :
  1234 = parsed_pid (nth 1 ["pwait"; "1234"] "") /\ 1 <= 1234.
Proof.
  apply (calls_name_the_target Sample.linux Sample.exits_42
           ["pwait"; "1234"] (Ptrace PTRACE_GETEVENTMSG 1234) 1234).
  - vm_compute. tauto.
  - reflexivity.
Defined.

Lemma negotiation_filter_none bld lc (f : event -> bool) :
  (forall e, is_negotiation_event e = true -> f e = false) ->
  filter f (negotiation_events bld lc) = [].
Proof. intros H. apply filter_none. now apply negotiation_is_local. Qed.

(** X7.  A run attaches at most once, with the request chosen at build
    time ([PTRACE_SEIZE] when the headers have it, [PTRACE_ATTACH]
    otherwise); and when it attaches, the handlers for SIGTERM and SIGINT
    have been installed just before, in that order, right after the
    negotiation. *)
Theorem attach_once_after_handlers bld k argv :
  filter is_attach (events (run bld k argv)) = [] \/
  filter is_attach (events (run bld k argv))
  = [Ptrace (attach_request bld) (parsed_pid (nth 1 argv ""))] /\
  exists after,
    events (run bld k argv)
    = (negotiation_events bld (caps k)
       ++ [Sigaction SIGTERM Handler_detach;
           Sigaction SIGINT Handler_detach;
           line ("Attempting to set ptrace on process "
                 ++ fmt_d (parsed_pid (nth 1 argv "")));
           Ptrace (attach_request bld) (parsed_pid (nth 1 argv ""))]
       ++ after)%list.
Proof.
  assert (A : forall p, filter is_attach (prelude bld k p)
                        = [Ptrace (attach_request bld) p]).
  { intros p. unfold prelude. rewrite filter_app.
    rewrite negotiation_filter_none
      by (intros []; try discriminate; reflexivity).
    unfold attach_request. destruct (have_PTRACE_SEIZE bld); reflexivity. }
  assert (W : forall p d r rs, filter is_attach (waitpid_trace p d r rs) = []).
  { intros. apply filter_none. now apply waitpid_trace_only. }
  assert (C : forall p, filter is_attach (closing k p) = []).
  { intros p. unfold closing, extraction_log.
    destruct (eventmsg k) as [m|]; [destruct (to_int m =? -1)|];
      reflexivity. }
  by_path bld k argv; cbn [nth].
  - left. reflexivity.
  - left. apply negotiation_filter_none.
    intros []; try discriminate; reflexivity.
  - left. rewrite filter_app. rewrite negotiation_filter_none
      by (intros []; try discriminate; reflexivity). reflexivity.
  - left. rewrite filter_app. rewrite negotiation_filter_none
      by (intros []; try discriminate; reflexivity). reflexivity.
  - right. rewrite filter_app, A. split; [reflexivity|].
    unfold prelude. rewrite <- !app_assoc. eexists. reflexivity.
  - right. rewrite filter_app, A, W. split; [reflexivity|].
    unfold prelude. rewrite <- !app_assoc. eexists. reflexivity.
  - right. rewrite !filter_app, A, W, C. split; [reflexivity|].
    unfold prelude. rewrite <- !app_assoc. eexists. reflexivity.
Qed.

(** ** Detaching *)




(** ** The extraction *)

(** X9.  The exit status is asked for at most once in a run, for the
    target, and only after the wait step has reported the exit event. *)
Theorem extraction_at_most_once bld k argv :
  filter is_geteventmsg (events (run bld k argv)) = [] \/
  filter is_geteventmsg (events (run bld k argv))
  = [Ptrace PTRACE_GETEVENTMSG (parsed_pid (nth 1 argv ""))] /\
  wait_outcome (parsed_pid (nth 1 argv "")) (waits k) = Done true.
Proof.
  assert (P0 : forall p, filter is_geteventmsg (prelude bld k p) = []).
  { intros p. unfold prelude. rewrite filter_app.
    rewrite negotiation_filter_none
      by (intros []; try discriminate; reflexivity).
    unfold attach_request. destruct (have_PTRACE_SEIZE bld); reflexivity. }
  assert (W : forall p d r rs,
            filter is_geteventmsg (waitpid_trace p d r rs) = []).
  { intros. apply filter_none. now apply waitpid_trace_only. }
  assert (C : forall p, filter is_geteventmsg (closing k p)
                        = [Ptrace PTRACE_GETEVENTMSG p]).
  { intros p. unfold closing, extraction_log.
    destruct (eventmsg k) as [m|]; [destruct (to_int m =? -1)|];
      reflexivity. }
  assert (N : filter is_geteventmsg (negotiation_events bld (caps k)) = [])
    by (apply negotiation_filter_none;
        intros []; try discriminate; reflexivity).
  by_path bld k argv; cbn [nth];
    rewrite ?filter_app, ?N, ?P0, ?W, ?C; auto.
Qed.

(** [get_tracee_exit_status] gives an [int]: -1 when the query fails, and
    otherwise the low 32 bits of the message, which is the message itself
    when it fits. *)
Lemma to_int_congruent z : (to_int z - z) mod 2 ^ 32 = 0.
Proof.
  unfold to_int.
  pose proof (Z.div_mod (z + 2 ^ 31) (2 ^ 32) ltac:(lia)) as D.
  replace ((z + 2 ^ 31) mod 2 ^ 32 - 2 ^ 31 - z)
    with (- ((z + 2 ^ 31) / 2 ^ 32) * 2 ^ 32) by lia.
  apply Z_mod_mult.
Qed.

(** X10.  [get_tracee_exit_status] issues one [PTRACE_GETEVENTMSG] for the
    target and returns an [int]: -1, after a diagnostic, when the query
    fails; otherwise the message reduced modulo 2^32 into the range of
    [int], which is the message itself when it is at most [INT_MAX]. *)
Theorem get_tracee_exit_status_result k w :
  exists v diag,
    get_tracee_exit_status k w
    = (Done v, push (diag ++ [Ptrace PTRACE_GETEVENTMSG (pid w)]) w) /\
    in_int v /\
    (eventmsg k = None ->
     v = -1 /\
     diag = [line ("Error getting process " ++ fmt_d (pid w) ++ " exit status")]) /\
    (forall m, eventmsg k = Some m ->
       diag = [] /\ (v - m) mod 2 ^ 32 = 0 /\ (0 <= m <= INT_MAX -> v = m)).
Proof.
  unfold get_tracee_exit_status. cbv [bind get_pid emit dprint ret].
  destruct (eventmsg k) as [m|].
  - exists (to_int m), []. split; [reflexivity|].
    split; [apply to_int_range|]. split; [discriminate|].
    intros m' [= <-]. split; [reflexivity|]. split; [apply to_int_congruent|].
    intros Hm. apply to_int_id. unfold in_int, INT_MIN, INT_MAX in *. lia.
  - exists (-1),
      [line ("Error getting process " ++ fmt_d (pid w) ++ " exit status")].
    split; [reflexivity|].
    split; [unfold in_int, INT_MIN, INT_MAX; lia|].
    split; [intros _; split; reflexivity | discriminate].
Qed.

Lemma get_tracee_exit_status_result_witness :
  fst (get_tracee_exit_status Sample.exits_42 (watching 1234)) = Done 42.
Proof.
  destruct (get_tracee_exit_status_result Sample.exits_42 (watching 1234))
    as (v & diag & E & _ & _ & H).
  destruct (H 42 eq_refl) as (_ & _ & Hv).
  rewrite E. cbn [fst]. f_equal. apply Hv.
  unfold INT_MAX. lia.
Defined.

(** ** The loops *)

Lemma waitpid_trace_passed_over p d pre st post :
  p <> -1 ->
  Forall (unrelated_stop p) pre ->
  exit_event_status st ->
  filter is_waitpid_call
    (waitpid_trace p d false (pre ++ Returned p st :: post))
  = repeat (Waitpid p) (S (List.length pre)) /\
  filter is_detach (waitpid_trace p d false (pre ++ Returned p st :: post))
  = [].
Proof.
  intros Hp Hpre Hst.
  induction pre as [|r pre IH]; cbn [app waitpid_trace].
  - destruct (Z.eqb_spec p (-1)); [contradiction|].
    rewrite Z.eqb_refl. cbn [negb].
    rewrite (proj2 (exit_event_status_iff st) Hst).
    split; reflexivity.
  - apply Forall_cons_iff in Hpre. destruct Hpre as [(st' & -> & Hn) Hpre].
    destruct (Z.eqb_spec p (-1)); [contradiction|].
    rewrite Z.eqb_refl. cbn [negb].
    destruct (WIFSTOPPED st' && _) eqn:E.
    { apply exit_event_status_iff in E. contradiction. }
    destruct (IH Hpre) as [IHw IHd].
    cbn [filter is_waitpid_call is_detach line List.length repeat].
    rewrite IHw, IHd. split; reflexivity.
Qed.

(** X11.  Stops of the target that are not its exit are passed over one by
    one: when [n] of them come before the exit event, the loop succeeds
    after exactly [n + 1] calls to [waitpid], all for the target, without
    detaching, whatever comes after the exit event. *)
Theorem unrelated_stops_are_passed_over pre st post w :
  pid w <> -1 ->
  Forall (unrelated_stop (pid w)) pre ->
  exit_event_status st ->
  exists evs,
    wait_using_waitpid (pre ++ Returned (pid w) st :: post) w
    = (Done true, push evs w) /\
    filter is_waitpid_call evs
    = repeat (Waitpid (pid w)) (S (List.length pre)) /\
    filter is_detach evs = [].
Proof.
  intros Hp Hpre Hst. unfold wait_using_waitpid. rewrite waitpid_loop_eq.
  set (d := fun s => disposition s w).
  assert (S0 : scan (pid w) d (pre ++ Returned (pid w) st :: post) = Done true).
  { apply scan_done. exists pre, (Returned (pid w) st), post.
    split; [reflexivity|]. split.
    - eapply Forall_impl; [|exact Hpre].
      intros r (st' & -> & Hn). now constructor.
    - now constructor. }
  rewrite S0. eexists. split; [reflexivity|].
  destruct (waitpid_trace_passed_over (pid w) d pre st post Hp Hpre Hst)
    as [Ew Ed].
  rewrite !filter_rev, Ew, Ed. split; [apply rev_repeat | reflexivity].
Qed.

Lemma unrelated_stops_are_passed_over_witness :
  exists evs,
    wait_using_waitpid
      [Returned 1234 Sample.stop_status; Returned 1234 Sample.exit_status]
      (watching 1234)
    = (Done true, push evs (watching 1234)) /\
    filter is_waitpid_call evs = [Waitpid 1234; Waitpid 1234] /\
    filter is_detach evs = [].
Proof.
  apply (unrelated_stops_are_passed_over
           [Returned 1234 Sample.stop_status] Sample.exit_status []
           (watching 1234)).
  - cbn [watching pid]. discriminate.
  - constructor; [|constructor].
    exists Sample.stop_status. split; [reflexivity|].
    intros [_ H]. vm_compute in H. discriminate H.
  - split; reflexivity.
Defined.

Lemma follow_done {R} (t : R -> turn) (cls : R -> option bool -> Prop) rs b :
  (forall r b, t r = TurnDone b <-> cls r (Some b)) ->
  (forall r, t r = TurnAgain <-> cls r None) ->
  follow t rs = Done b <->
  exists pre r post,
    rs = (pre ++ r :: post)%list /\
    Forall (fun x => cls x None) pre /\
    cls r (Some b).
Proof.
  intros HD HA.
  induction rs as [|r rs IH]; cbn [follow].
  - split; [discriminate|]. intros (pre & r & post & E & _). now destruct pre.
  - destruct (t r) eqn:T.
    + split.
      * intros [= <-]. exists [], r, rs.
        repeat split; [constructor | now apply HD].
      * intros (pre & r' & post & E & Hpre & Hr).
        destruct pre as [|x pre]; cbn in E.
        -- injection E as <- <-. apply HD in Hr. congruence.
        -- injection E as <- ->. apply Forall_inv in Hpre.
           apply HA in Hpre. congruence.
    + rewrite IH. split.
      * intros (pre & r' & post & -> & Hpre & Hr). exists (r :: pre), r', post.
        repeat split; [constructor; [now apply HA | assumption] | assumption].
      * intros (pre & r' & post & E & Hpre & Hr).
        destruct pre as [|x pre]; cbn in E.
        -- injection E as <- <-. apply HD in Hr. congruence.
        -- injection E as <- ->. apply Forall_inv_tail in Hpre.
           now exists pre, r', post.
    + split; [discriminate|].
      intros (pre & r' & post & E & Hpre & Hr).
      destruct pre as [|x pre]; cbn in E.
      * injection E as <- <-. apply HD in Hr. congruence.
      * injection E as <- ->. apply Forall_inv in Hpre.
        apply HA in Hpre. congruence.
Qed.

Lemma turn_of_id_done d r b :
  turn_of_id d r = TurnDone b <-> waitid_class d r (Some b).
Proof.
  split.
  - destruct r as [r sp sc ss|s]; cbn [turn_of_id].
    + destruct (Z.eqb_spec r 0) as [->|Hr]; cbn [negb].
      2:{ intros [= <-]. now constructor. }
      destruct (Z.eqb_spec sp 0) as [->|Hsp].
      { intros [= <-]. apply idclass_unfilled. }
      destruct (Z.eqb_spec sc CLD_TRAPPED) as [->|Hsc]; [|discriminate].
      destruct (Z.eqb_spec ss PTRACE_EXIT_SIGINFO_STATUS) as [->|Hss];
        [|discriminate].
      intros [= <-]. now constructor.
    + unfold signal_turn. destruct (d s) eqn:E; try discriminate.
      intros [= <-]. now constructor.
  - intros H. inversion H; subst; cbn [turn_of_id].
    + destruct (Z.eqb_spec sp 0); [contradiction|].
      now rewrite !Z.eqb_refl.
    + destruct (Z.eqb_spec r0 0); [contradiction | reflexivity].
    + reflexivity.
    + unfold signal_turn.
      match goal with H : d _ = _ |- _ => now rewrite H end.
Qed.

Lemma turn_of_id_again d r :
  turn_of_id d r = TurnAgain <-> waitid_class d r None.
Proof.
  split.
  - destruct r as [r sp sc ss|s]; cbn [turn_of_id].
    + destruct (Z.eqb_spec r 0) as [->|Hr]; cbn [negb]; [|discriminate].
      destruct (Z.eqb_spec sp 0) as [->|Hsp]; [discriminate|].
      destruct (Z.eqb_spec sc CLD_TRAPPED) as [->|Hsc];
        [destruct (Z.eqb_spec ss PTRACE_EXIT_SIGINFO_STATUS) as [->|Hss];
         [discriminate|]|];
        intros _; constructor; try assumption; intros [? ?]; contradiction.
    + unfold signal_turn. destruct (d s) eqn:E; try discriminate.
      intros _. now constructor.
  - intros H. inversion H; subst; cbn [turn_of_id].
    + destruct (Z.eqb_spec sp 0); [contradiction|].
      destruct (Z.eqb_spec sc CLD_TRAPPED);
        [destruct (Z.eqb_spec ss PTRACE_EXIT_SIGINFO_STATUS)|];
        try reflexivity.
      match goal with H : ~ _ |- _ => destruct H; now split end.
    + unfold signal_turn.
      match goal with H : d _ = _ |- _ => now rewrite H end.
Qed.

(** X12.  The waitid-based loop returns success exactly when, after results
    it passes over, it meets a result of a successful call with a non-zero
    [si_pid], [si_code = CLD_TRAPPED] and [si_status] the exit event; and
    failure exactly when it then meets a failed call, a result whose
    [si_pid] is still 0, or an interruption by a handled signal.  It never
    compares [si_pid] with the target. *)
Theorem wait_using_waitid_returns rs w b :
  fst (wait_using_waitid rs w) = Done b <->
  exists pre r post,
    rs = (pre ++ r :: post)%list /\
    Forall (fun x => waitid_class (fun s => disposition s w) x None) pre /\
    waitid_class (fun s => disposition s w) r (Some b).
Proof.
  unfold wait_using_waitid. rewrite waitid_loop_scan. unfold scan_id.
  apply follow_done; [apply turn_of_id_done | apply turn_of_id_again].
Qed.

(** ** The negotiation and the capability structure *)

Lemma cap_free_at_most_once bld lc :
  (List.length (filter is_cap_free
                  (libcap_calls (negotiation_events bld lc))) <= 1)%nat.
Proof.
  negotiation_paths bld lc ltac:(vm_compute; repeat constructor).
Qed.

Ltac compute_calls :=
  match goal with
  | |- context [libcap_calls ?e] =>
      let l := eval vm_compute in (libcap_calls e) in
      replace (libcap_calls e) with l by (vm_compute; reflexivity)
  end.

Ltac no_such_call H :=
  cbn [In] in H; repeat (destruct H as [H|H]; [discriminate H|]); exact H.

Lemma cap_free_is_last bld lc :
  In CapFree (libcap_calls (negotiation_events bld lc)) ->
  cap_get_proc_ok lc = true /\
  exists init,
    libcap_calls (negotiation_events bld lc) = (init ++ [CapFree])%list /\
    ~ In CapFree init.
Proof.
  negotiation_paths bld lc
    ltac:(compute_calls; intros H;
          first [ solve [exfalso; no_such_call H]
                | split; [reflexivity|];
                  match goal with
                  | |- exists init, ?l = _ /\ _ =>
                      exists (removelast l); split;
                      [reflexivity | intros H'; no_such_call H']
                  end ]).
Qed.

Lemma cap_free_skipped bld lc :
  have_CAP_SYS_PTRACE bld = true ->
  cap_is_supported lc = true ->
  cap_get_proc_ok lc = true ->
  effective_before lc = Some CAP_SET \/
  effective_before lc = Some CAP_CLEAR /\ permitted lc = Some CAP_CLEAR ->
  In CapGetProc (libcap_calls (negotiation_events bld lc)) /\
  ~ In CapFree (libcap_calls (negotiation_events bld lc)).
Proof.
  destruct bld as [hc hs], lc as [a b c d e f g h]. cbn.
  intros -> -> -> [-> | [-> ->]]; cbn; intuition discriminate.
Qed.

(** X13.  The capability structure is released at most once, as the last
    libcap call, and only after [cap_get_proc] gave one; on the two returns
    that follow a successful flag check (capability already effective, or
    not permitted) it has been obtained and is not released. *)
Theorem capability_structure_release bld lc :
  (List.length (filter is_cap_free
                  (libcap_calls (negotiation_events bld lc))) <= 1)%nat /\
  (In CapFree (libcap_calls (negotiation_events bld lc)) ->
   cap_get_proc_ok lc = true /\
   exists init,
     libcap_calls (negotiation_events bld lc) = (init ++ [CapFree])%list /\
     ~ In CapFree init) /\
  (have_CAP_SYS_PTRACE bld = true ->
   cap_is_supported lc = true ->
   cap_get_proc_ok lc = true ->
   effective_before lc = Some CAP_SET \/
   effective_before lc = Some CAP_CLEAR /\ permitted lc = Some CAP_CLEAR ->
   In CapGetProc (libcap_calls (negotiation_events bld lc)) /\
   ~ In CapFree (libcap_calls (negotiation_events bld lc))).
Proof.
  split; [apply cap_free_at_most_once|].
  split; [apply cap_free_is_last | apply cap_free_skipped].
Qed.

Lemma capability_structure_release_witness :
  In CapGetProc (libcap_calls (negotiation_events Sample.linux Sample.held)) /\
  ~ In CapFree (libcap_calls (negotiation_events Sample.linux Sample.held)).
Proof.
  apply (proj2 (proj2 (capability_structure_release Sample.linux Sample.held)));
    try reflexivity.
  left. reflexivity.
Defined.

(** ** Diagnostics *)

Lemma substring_0_nil n : substring 0 n "" = "".
Proof. destruct n; reflexivity. Qed.

Lemma substring_0_cons n c s :
  substring 0 (S n) (String c s) = String c (substring 0 n s).
Proof. reflexivity. Qed.

Lemma substring_0_length n : forall s,
  String.length (substring 0 n s) = Nat.min n (String.length s).
Proof.
  induction n as [|n IH]; intros s.
  - destruct s; reflexivity.
  - destruct s as [|c s]; [reflexivity|].
    rewrite substring_0_cons. cbn [String.length]. rewrite IH.
    reflexivity.
Qed.

Lemma substring_0_prefix n : forall s, prefix (substring 0 n s) s = true.
Proof.
  induction n as [|n IH]; intros s.
  - destruct s; reflexivity.
  - destruct s as [|c s]; [reflexivity|].
    rewrite substring_0_cons. cbn [prefix].
    destruct (ascii_dec c c) as [_|N]; [apply IH | now destruct N].
Qed.

Lemma substring_0_all n : forall s,
  (String.length s <= n)%nat -> substring 0 n s = s.
Proof.
  induction n as [|n IH]; intros s H.
  - destruct s; [reflexivity | cbn in H; lia].
  - destruct s as [|c s]; [reflexivity|].
    rewrite substring_0_cons, IH; [reflexivity | cbn in H; lia].
Qed.

(** X14.  [dprint] writes one line on the error stream and touches nothing
    else: the text is the message cut to the 1023 characters that fit its
    buffer, followed by a new line; a message of at most 1023 characters is
    written whole. *)
Theorem dprint_is_bounded message w :
  exists text,
    dprint message w = (Done tt, push [Stderr (text ++ nl)] w) /\
    String.length text = Nat.min 1023 (String.length message) /\
    prefix text message = true /\
    ((String.length message <= 1023)%nat -> text = message).
Proof.
  exists (substring 0 1023 message).
  split; [apply dprint_push|].
  split; [apply substring_0_length|].
  split; [apply substring_0_prefix | apply substring_0_all].
Qed.

Lemma dprint_is_bounded_witness :
  exists text,
    dprint "Wait successful" blank = (Done tt, push [Stderr (text ++ nl)] blank)
    /\ text = "Wait successful".
Proof.
  destruct (dprint_is_bounded "Wait successful" blank) as (t & E & _ & _ & H).
  exists t. split; [exact E|]. apply H. cbn [String.length]. lia.
Defined.

(** ** The argument *)

Lemma to_int_mod a b : (a - b) mod 2 ^ 32 = 0 -> to_int a = to_int b.
Proof.
  intros H. apply Z.mod_divide in H; [|lia]. destruct H as [q Hq].
  unfold to_int. replace (a + 2 ^ 31) with (b + 2 ^ 31 + q * 2 ^ 32) by lia.
  now rewrite Z_mod_plus_full.
Qed.

(** X15.  Of its arguments the program reads the first only, and of that
    only the value [strtol] gives it, as a [pid_t]: two numeric arguments
    whose values differ by a multiple of 2^32 give the same run, whatever
    the program name and the further arguments.  (So the argument
    4294967297 names the process 1.) *)
Theorem argument_is_read_as_pid_t bld k prog prog' arg arg' rest rest' :
  numeric arg = true ->
  numeric arg' = true ->
  (Strtol.value (Strtol.strtol0 arg) - Strtol.value (Strtol.strtol0 arg'))
    mod 2 ^ 32 = 0 ->
  run bld k (prog :: arg :: rest) = run bld k (prog' :: arg' :: rest').
Proof.
  intros Hn Hn' Hv.
  assert (Hp : parsed_pid arg = parsed_pid arg')
    by (unfold parsed_pid; now apply to_int_mod).
  unfold numeric in Hn, Hn'. apply negb_true_iff in Hn, Hn'.
  unfold run, main. rewrite !argc_two. cbn [nth]. cbv zeta.
  rewrite Hn, Hn'.
  change (to_int (Strtol.value (Strtol.strtol0 arg))) with (parsed_pid arg).
  change (to_int (Strtol.value (Strtol.strtol0 arg'))) with (parsed_pid arg').
  rewrite Hp. reflexivity.
Qed.

Lemma argument_is_read_as_pid_t_witness :
  run Sample.linux Sample.exits_42 ["pwait"; "4294967297"]
  = run Sample.linux Sample.exits_42 ["./pwait"; "1"; "ignored"].
Proof.
  apply (argument_is_read_as_pid_t Sample.linux Sample.exits_42
           "pwait" "./pwait" "4294967297" "1" [] ["ignored"]).
  - reflexivity.
  - reflexivity.
  - vm_compute. reflexivity.
Defined.

(** X16.  A run that is given an argument begins with the privilege
    negotiation, and calls libcap nowhere else; a run without an argument
    does not call libcap at all. *)
Theorem libcap_only_in_negotiation bld k argv :
  ((List.length argv < 2)%nat ->
   filter is_libcap (events (run bld k argv)) = []) /\
  ((2 <= List.length argv)%nat ->
   exists after,
     events (run bld k argv)
     = (negotiation_events bld (caps k) ++ after)%list /\
     filter is_libcap after = []).
Proof.
  assert (W : forall p d r rs, filter is_libcap (waitpid_trace p d r rs) = []).
  { intros. apply filter_none. now apply waitpid_trace_only. }
  assert (C : forall p, filter is_libcap (closing k p) = []).
  { intros p. unfold closing, extraction_log.
    destruct (eventmsg k) as [m|]; [destruct (to_int m =? -1)|];
      reflexivity. }
  by_path bld k argv; cbn [List.length]; (split; intros L; try lia);
    unfold prelude; rewrite <- ?app_assoc.
  - reflexivity.
  - exists []. now rewrite app_nil_r.
  - eexists. split; reflexivity.
  - eexists. split; reflexivity.
  - eexists. split; [reflexivity|].
    unfold attach_request. destruct (have_PTRACE_SEIZE bld); reflexivity.
  - eexists. split; [reflexivity|]. rewrite filter_app, W.
    unfold attach_request. destruct (have_PTRACE_SEIZE bld); reflexivity.
  - eexists. split; [reflexivity|]. rewrite !filter_app, W, C.
    unfold attach_request. destruct (have_PTRACE_SEIZE bld); reflexivity.
Qed.

Lemma libcap_only_in_negotiation_witness :
  filter is_libcap (events (run Sample.linux Sample.exits_42 ["pwait"])) = [].
Proof.
  apply (proj1 (libcap_only_in_negotiation Sample.linux Sample.exits_42
                  ["pwait"])).
  cbn [List.length]. lia.
Defined.

(** ** What the wait loops leave alone *)

Lemma framed_waitid_loop rs : forall resumed, framed (waitid_loop resumed rs).
Proof.
  induction rs as [|r rs IH]; intros resumed; cbn [waitid_loop].
  - framed_steps.
  - apply framed_bind; [framed_steps|]. intros _. destruct r.
    + apply framed_waitid_turn; auto.
    + apply framed_bind; auto with framed. intros b. apply framed_if; auto.
      apply framed_waitid_turn; auto with framed.
Qed.

Lemma framed_keeps {A} (m : M A) w :
  framed m ->
  pid (snd (m w)) = pid w /\
  on_sigterm (snd (m w)) = on_sigterm w /\
  on_sigint (snd (m w)) = on_sigint w /\
  exists evs,
    log (snd (m w)) = (evs ++ log w)%list /\
    Forall (fun e => is_wait_event e = true) evs.
Proof.
  intros F. destruct (F w) as [evs [E Q]]. rewrite E.
  repeat split. now exists evs.
Qed.

(** X17.  Neither wait loop changes the target or the signal handlers, and
    all either adds to the log are its own wait calls, diagnostics and the
    detach of the signal handler: no attach, no event-message query, no
    output, however the loop ends. *)
Theorem wait_loops_keep_to_themselves w :
  (forall rs,
     pid (snd (wait_using_waitpid rs w)) = pid w /\
     on_sigterm (snd (wait_using_waitpid rs w)) = on_sigterm w /\
     on_sigint (snd (wait_using_waitpid rs w)) = on_sigint w /\
     exists evs,
       log (snd (wait_using_waitpid rs w)) = (evs ++ log w)%list /\
       Forall (fun e => is_wait_event e = true) evs) /\
  (forall rs,
     pid (snd (wait_using_waitid rs w)) = pid w /\
     on_sigterm (snd (wait_using_waitid rs w)) = on_sigterm w /\
     on_sigint (snd (wait_using_waitid rs w)) = on_sigint w /\
     exists evs,
       log (snd (wait_using_waitid rs w)) = (evs ++ log w)%list /\
       Forall (fun e => is_wait_event e = true) evs).
Proof.
  split; intros rs; apply framed_keeps.
  - apply framed_waitpid_loop.
  - apply framed_waitid_loop.
Qed.
